(** * noVNC audio plugin: a shallow embedding of [audio-plugin.js]

    The development follows the layout of the script:
    - [JS]: the fragment of JavaScript values, strings and exceptions the
      script relies on;
    - [MediaSourcePlayer]: the helper class feeding data segments to a
      [SourceBuffer], over an abstract platform primitive;
    - [AudioProxy]: the handshake with the audio proxy;
    - [AudioPlugin]: the plugin object ([startAudio], [stopAudio] and the
      listeners it installs).

    Handlers run to completion one at a time (the browser's event loop), so
    every handler is a function on an explicit state; a thrown exception is
    the left summand of the result and keeps the state changes made before
    the throw. An async function is cut at the [await]s where it waits for
    an event ('sourceopen', the reply to the handshake); [await]s on values
    that are settled already ([pause()], [detach()], [stopAudio()]) run
    through. Objects shared by reference (media elements, players, sockets)
    live in stores and are referred to by their index. Times (seconds, IEEE
    doubles in the browser) are rationals; strings are byte strings, the
    UTF-8 encoding of the text. *)

From Stdlib Require Import QArith Qminmax.
From stdpp Require Import gmap strings list pretty.

Local Open Scope string_scope.

(** ** JavaScript values, strings and exceptions *)

Module JS.

Inductive Value :=
| Undefined
| Null
| Bool (b : bool)
| Num (n : Z)
| Str (s : string).

(** [String(v)], as used by template literals. *)
Definition to_string (v : Value) : string :=
  match v with
  | Undefined => "undefined"
  | Null => "null"
  | Bool true => "true"
  | Bool false => "false"
  | Num n => pretty n
  | Str s => s
  end.

(** [if (v)] and [v ? a : b]. *)
Definition truthy (v : Value) : bool :=
  match v with
  | Undefined | Null => false
  | Bool b => b
  | Num n => negb (n =? 0)%Z
  | Str s => negb (String.eqb s "")
  end.

(** [v != null]: loose inequality, false for [null] and [undefined]. *)
Definition not_null (v : Value) : bool :=
  match v with
  | Undefined | Null => false
  | _ => true
  end.

(** [v === u] *)
Definition strict_eq (v u : Value) : bool :=
  match v, u with
  | Undefined, Undefined | Null, Null => true
  | Bool a, Bool b => Bool.eqb a b
  | Num a, Num b => (a =? b)%Z
  | Str a, Str b => String.eqb a b
  | _, _ => false
  end.

(** A parameter declared [p = d] takes [d] when the argument is missing
    or [undefined]. *)
Definition default_param (v d : Value) : Value :=
  match v with
  | Undefined => d
  | _ => v
  end.

(** Thrown objects: the script only looks at [name] and [message]. *)
Record Error := mkErr { name : string; message : string }.

(** [new Error(msg)] *)
Definition new_Error (msg : string) : Error := mkErr "Error" msg.

(** Reading a property of [null] or [undefined]. *)
Definition TypeError (msg : string) : Error := mkErr "TypeError" msg.

Definition LF : string := String (Ascii.ascii_of_nat 10) "".

(** White space and line terminators of one byte: U+0009 to U+000D and
    U+0020. *)
Definition is_space (c : Ascii.ascii) : bool :=
  let n := Ascii.nat_of_ascii c in
  ((9 <=? n)%nat && (n <=? 13)%nat) || (n =? 32)%nat.

(** A string holds the UTF-8 bytes of its text. White space of two
    bytes: U+00A0. *)
Definition is_space2 (c1 c2 : Ascii.ascii) : bool :=
  (Ascii.nat_of_ascii c1 =? 194)%nat && (Ascii.nat_of_ascii c2 =? 160)%nat.

(** White space and line terminators of three bytes: U+1680, U+2000 to
    U+200A, U+2028, U+2029, U+202F, U+205F, U+3000 and U+FEFF. *)
Definition is_space3 (c1 c2 c3 : Ascii.ascii) : bool :=
  let n1 := Ascii.nat_of_ascii c1 in
  let n2 := Ascii.nat_of_ascii c2 in
  let n3 := Ascii.nat_of_ascii c3 in
  ((n1 =? 225) && (n2 =? 154) && (n3 =? 128))%nat
  || ((n1 =? 226) && (n2 =? 128)
      && (((128 <=? n3) && (n3 <=? 138)) || (n3 =? 168) || (n3 =? 169)
          || (n3 =? 175)))%nat
  || ((n1 =? 226) && (n2 =? 129) && (n3 =? 159))%nat
  || ((n1 =? 227) && (n2 =? 128) && (n3 =? 128))%nat
  || ((n1 =? 239) && (n2 =? 187) && (n3 =? 191))%nat.

(** Drops the white space a string starts with; [w2] and [w3] tell the
    white space of two and of three bytes. *)
Fixpoint drop_space (w2 : Ascii.ascii -> Ascii.ascii -> bool)
    (w3 : Ascii.ascii -> Ascii.ascii -> Ascii.ascii -> bool) (s : string)
    : string :=
  match s with
  | "" => ""
  | String c1 s1 =>
      if is_space c1 then drop_space w2 w3 s1
      else
        match s1 with
        | "" => s
        | String c2 s2 =>
            if w2 c1 c2 then drop_space w2 w3 s2
            else
              match s2 with
              | "" => s
              | String c3 s3 =>
                  if w3 c1 c2 c3 then drop_space w2 w3 s3 else s
              end
        end
  end.

Definition trimStart (s : string) : string :=
  drop_space is_space2 is_space3 s.

(** The same from the end: on the reversed string, with the bytes of a
    character in reverse. *)
Definition trimEnd (s : string) : string :=
  String.rev
    (drop_space (fun c2 c1 => is_space2 c1 c2)
                (fun c3 c2 c1 => is_space3 c1 c2 c3)
                (String.rev s)).

(** [s.trim()] *)
Definition trim (s : string) : string := trimEnd (trimStart s).

(** [s.startsWith(p)] *)
Definition startsWith (s p : string) : bool := String.prefix p s.

(** [s.substring(n)] *)
Fixpoint substring (n : nat) (s : string) : string :=
  match n, s with
  | O, _ => s
  | S n', String _ s' => substring n' s'
  | S _, "" => ""
  end.

End JS.

(** ** Handlers

    A handler is a state transformer that may throw: the state it returns
    holds the changes made up to the throw. *)

Module Handler.

Definition M (S A : Type) : Type := S -> (JS.Error + A) * S.

Definition ret {S A} (a : A) : M S A := fun w => (inr a, w).

Definition bind {S A B} (m : M S A) (k : A -> M S B) : M S B :=
  fun w =>
    match m w with
    | (inl e, w') => (inl e, w')
    | (inr a, w') => k a w'
    end.

Definition throw {S A} (e : JS.Error) : M S A := fun w => (inl e, w).

(** [try { m } catch (err) { h err }] *)
Definition try_catch {S A} (m : M S A) (h : JS.Error -> M S A) : M S A :=
  fun w =>
    match m w with
    | (inl e, w') => h e w'
    | r => r
    end.

Definition get {S} : M S S := fun w => (inr w, w).

Definition modify {S} (f : S -> S) : M S unit := fun w => (inr tt, f w).

Module Notations.
Notation "x <- m ;; k" := (bind m (fun x => k))
  (at level 100, m at next level, right associativity).
Notation "m ;; k" := (bind m (fun _ => k))
  (at level 100, right associativity).
End Notations.

End Handler.

(** ** class MediaSourcePlayer *)

Module MediaSourcePlayer.

Import Handler Handler.Notations.

(** [static BUFFER_MIN_REMAIN = 30] *)
Definition BUFFER_MIN_REMAIN : Q := 30.

(** A data segment: the [ArrayBuffer] of one WebSocket message. *)
Definition Segment : Type := list Byte.byte.

(** [MediaSource.readyState] *)
Inductive ReadyState := closed | open | ended.

Definition ReadyState_to_string (r : ReadyState) : string :=
  match r with
  | closed => "closed"
  | open => "open"
  | ended => "ended"
  end.

Definition is_open (r : ReadyState) : bool :=
  match r with
  | open => true
  | _ => false
  end.

(** The platform primitive ([SourceBuffer]) as an interface. Nothing is
    assumed about an implementation: every operation may change the
    primitive's state, and [appendBuffer], [buffered.end(0)] and [remove]
    may throw. *)
Class SourceBuffer (P : Type) := {
  updating : P -> bool;
  appendBuffer : Segment -> P -> option JS.Error * P;
  buffered_end : P -> JS.Error + Q;
  remove : Q -> Q -> P -> option JS.Error * P;
  set_mode_sequence : P -> P
}.

(** The media element the player is attached to. *)
Record Element := mkElement {
  src : option string;
  currentTime : Q;
  paused : bool;
  playListener : bool;
  seekable_end : option Q
}.

(** The calls received by the primitive, in order, with their outcome
    ([None]: returned normally). *)
Inductive Call :=
| CallAppend (data : Segment) (thrown : option JS.Error)
| CallRemove (from to : Q) (thrown : option JS.Error).

Definition appended_by (c : Call) : list Segment :=
  match c with
  | CallAppend data None => [data]
  | _ => []
  end.

(** The segments the primitive accepted, in the order it accepted them. *)
Definition appended_of (cs : list Call) : list Segment :=
  concat (map appended_by cs).

(** [URL.createObjectURL(this.mediaSource)] *)
Definition objectURL : string := "blob:mediasource".

Section Player.

Context {P : Type} `{SourceBuffer P}.

(** The fields of an instance. [sourceBuffer] is [undefined] until
    'sourceopen'; [openListener] is the [once] listener the constructor
    registers for 'sourceopen', [attachPending] the one of [attach]'s
    promise. *)
Record Player := mkPlayer {
  mime : string;
  readyState : ReadyState;
  sourceBuffer : option P;
  directFeed : bool;
  dataQueue : list Segment;
  attachedEl : option nat;
  openListener : bool;
  attachPending : bool
}.

(** An instance together with the document it lives in and the record
    of the calls its primitive received. *)
Record World := mkWorld {
  this : Player;
  dom : gmap nat Element;
  calls : list Call
}.

Definition set_readyState (r : ReadyState) (p : Player) : Player :=
  mkPlayer (mime p) r (sourceBuffer p) (directFeed p) (dataQueue p)
           (attachedEl p) (openListener p) (attachPending p).

Definition set_sourceBuffer (b : option P) (p : Player) : Player :=
  mkPlayer (mime p) (readyState p) b (directFeed p) (dataQueue p)
           (attachedEl p) (openListener p) (attachPending p).

Definition set_directFeed (d : bool) (p : Player) : Player :=
  mkPlayer (mime p) (readyState p) (sourceBuffer p) d (dataQueue p)
           (attachedEl p) (openListener p) (attachPending p).

Definition set_dataQueue (q : list Segment) (p : Player) : Player :=
  mkPlayer (mime p) (readyState p) (sourceBuffer p) (directFeed p) q
           (attachedEl p) (openListener p) (attachPending p).

Definition set_attachedEl (e : option nat) (p : Player) : Player :=
  mkPlayer (mime p) (readyState p) (sourceBuffer p) (directFeed p)
           (dataQueue p) e (openListener p) (attachPending p).

Definition set_openListener (o : bool) (p : Player) : Player :=
  mkPlayer (mime p) (readyState p) (sourceBuffer p) (directFeed p)
           (dataQueue p) (attachedEl p) o (attachPending p).

Definition set_attachPending (a : bool) (p : Player) : Player :=
  mkPlayer (mime p) (readyState p) (sourceBuffer p) (directFeed p)
           (dataQueue p) (attachedEl p) (openListener p) a.

Definition upd_this (f : Player -> Player) (w : World) : World :=
  mkWorld (f (this w)) (dom w) (calls w).

Definition upd_dom (f : gmap nat Element -> gmap nat Element) (w : World) : World :=
  mkWorld (this w) (f (dom w)) (calls w).

Definition record_call (c : Call) (w : World) : World :=
  mkWorld (this w) (dom w) (calls w ++ [c])%list.

Definition M (A : Type) : Type := Handler.M World A.

(** *** Calls on [this.sourceBuffer] *)

Definition undefined_sourceBuffer : JS.Error :=
  JS.TypeError "this.sourceBuffer is undefined".

Definition sb_updating : M bool :=
  fun w =>
    match sourceBuffer (this w) with
    | None => (inl undefined_sourceBuffer, w)
    | Some p => (inr (updating p), w)
    end.

Definition sb_appendBuffer (data : Segment) : M unit :=
  fun w =>
    match sourceBuffer (this w) with
    | None => (inl undefined_sourceBuffer, w)
    | Some p =>
        let r := appendBuffer data p in
        let w' := record_call (CallAppend data (fst r))
                    (upd_this (set_sourceBuffer (Some (snd r))) w) in
        match fst r with
        | Some e => (inl e, w')
        | None => (inr tt, w')
        end
    end.

Definition sb_buffered_end : M Q :=
  fun w =>
    match sourceBuffer (this w) with
    | None => (inl undefined_sourceBuffer, w)
    | Some p => (buffered_end p, w)
    end.

Definition sb_remove (from to : Q) : M unit :=
  fun w =>
    match sourceBuffer (this w) with
    | None => (inl undefined_sourceBuffer, w)
    | Some p =>
        let r := remove from to p in
        let w' := record_call (CallRemove from to (fst r))
                    (upd_this (set_sourceBuffer (Some (snd r))) w) in
        match fst r with
        | Some e => (inl e, w')
        | None => (inr tt, w')
        end
    end.

(** The errors the methods throw, under the names the specification
    gives them. *)
Definition AlreadyAttachedError : JS.Error :=
  JS.new_Error "Already attached to an element".

Definition NotAttachedError : JS.Error :=
  JS.new_Error "Not attached to any elements".

Definition InvalidStateError (r : ReadyState) : JS.Error :=
  JS.new_Error ("Bad MediaSource state: " +:+ ReadyState_to_string r).

(** *** constructor(mime) *)

Definition new (mime : string) : Player :=
  {| mime := mime;
     readyState := closed;
     sourceBuffer := None;
     directFeed := true;
     dataQueue := [];
     attachedEl := None;
     openListener := true;
     attachPending := false |}.

(** [this.#dataQueue.shift()] *)
Definition shift : M unit :=
  modify (upd_this (fun p => set_dataQueue (tail (dataQueue p)) p)).

(** [this.#dataQueue.push(data)] *)
Definition push (data : Segment) : M unit :=
  modify (upd_this (fun p => set_dataQueue (dataQueue p ++ [data])%list p)).

(** The upper end of the range dropped when the quota is exceeded:
    [(removeEnd <= 0) ? 1 : removeEnd]. *)
Definition evict_end (bufferEnd : Q) : Q :=
  let removeEnd := (bufferEnd - BUFFER_MIN_REMAIN)%Q in
  if Qle_bool removeEnd 0 then 1%Q else removeEnd.

(** The 'updateend' listener of the source buffer. *)
Definition on_updateend : M unit :=
  u <- sb_updating ;;
  if u : bool then ret tt
  else
    w <- get ;;
    match dataQueue (this w) with
    | [] => modify (upd_this (set_directFeed true))
    | data :: _ =>
        try_catch
          (sb_appendBuffer data ;; shift)
          (fun err =>
             if String.eqb (JS.name err) "QuotaExceededError" then
               bufferEnd <- sb_buffered_end ;;
               sb_remove 0%Q (evict_end bufferEnd) ;;
               u' <- sb_updating ;;
               if u' : bool then ret tt
               else sb_appendBuffer data ;; shift
             else throw err)
    end.

(** The constructor's 'sourceopen' listener; [p0] is the buffer
    [addSourceBuffer(mime)] returns. Registering the 'updateend'
    listener is [sourceBuffer] becoming defined. *)
Definition on_sourceopen (p0 : P) : M unit :=
  modify (upd_this (set_sourceBuffer (Some (set_mode_sequence p0)))).

(** static playEventHandler(event) *)
Definition playEventHandler (el : Element) : Element :=
  match seekable_end el with
  | Some t => mkElement (src el) t (paused el) (playListener el) (seekable_end el)
  | None => el
  end.

(** async attach(element): the part that runs before the promise is
    returned. The promise resolves at the next 'sourceopen'. *)
Definition attach (element : nat) : M unit :=
  w <- get ;;
  match attachedEl (this w) with
  | Some _ => throw AlreadyAttachedError
  | None =>
      modify (upd_dom (alter (fun el =>
        mkElement (Some objectURL) (currentTime el) (paused el) true
                  (seekable_end el)) element)) ;;
      modify (upd_this (set_attachedEl (Some element))) ;;
      modify (upd_this (set_attachPending true))
  end.

(** async detach() *)
Definition detach : M unit :=
  w <- get ;;
  match attachedEl (this w) with
  | Some element =>
      modify (upd_dom (alter (fun el =>
        mkElement None 0%Q true false (seekable_end el)) element))
  | None => ret tt
  end.

(** feed(data) *)
Definition feed (data : Segment) : M unit :=
  w <- get ;;
  match attachedEl (this w) with
  | None => throw NotAttachedError
  | Some _ =>
      if negb (is_open (readyState (this w))) then
        throw (InvalidStateError (readyState (this w)))
      else if directFeed (this w) then
        sb_appendBuffer data ;;
        u <- sb_updating ;;
        if u : bool then modify (upd_this (set_directFeed false))
        else ret tt
      else push data
  end.

(** *** The instance in its environment

    What can happen to an instance: its three methods are called, and
    the platform opens the media source, changes its [readyState],
    lets the primitive progress (an append or a removal advances or
    completes) and dispatches 'updateend'. *)
Inductive Event :=
| EvAttach (element : nat)
| EvDetach
| EvFeed (data : Segment)
| EvSourceOpen (p0 : P)
| EvReadyState (r : ReadyState)
| EvProgress (p' : P)
| EvUpdateEnd.

(** Dispatching 'sourceopen': both listeners are [once]. *)
Definition fire_sourceopen (p0 : P) : M unit :=
  modify (upd_this (set_readyState open)) ;;
  w <- get ;;
  (if openListener (this w) then
     modify (upd_this (set_openListener false)) ;;
     on_sourceopen p0
   else ret tt) ;;
  modify (upd_this (set_attachPending false)).

(** Dispatching 'updateend': the listener exists once the source
    buffer does. *)
Definition fire_updateend : M unit :=
  w <- get ;;
  match sourceBuffer (this w) with
  | Some _ => on_updateend
  | None => ret tt
  end.

Definition progress (p' : P) : M unit :=
  modify (upd_this (fun p =>
    match sourceBuffer p with
    | Some _ => set_sourceBuffer (Some p') p
    | None => p
    end)).

Definition step (ev : Event) : M unit :=
  match ev with
  | EvAttach element => attach element
  | EvDetach => detach
  | EvFeed data => feed data
  | EvSourceOpen p0 => fire_sourceopen p0
  | EvReadyState r => modify (upd_this (set_readyState r))
  | EvProgress p' => progress p'
  | EvUpdateEnd => fire_updateend
  end.

(** The segments whose [feed] call returned normally. *)
Definition accepted_by (ev : Event) (r : JS.Error + unit) : list Segment :=
  match ev, r with
  | EvFeed data, inr _ => [data]
  | _, _ => []
  end.

(** Runs the events in order; an exception ends its handler, not the
    run. Returns the final state and the accepted segments. *)
Fixpoint run (evs : list Event) (w : World) : World * list Segment :=
  match evs with
  | [] => (w, [])
  | ev :: evs' =>
      let r := step ev w in
      let rest := run evs' (snd r) in
      (fst rest, (accepted_by ev (fst r) ++ snd rest)%list)
  end.

(** The segments passed to [feed], accepted or not. *)
Definition fed (evs : list Event) : list Segment :=
  concat (map (fun ev => match ev with EvFeed data => [data] | _ => [] end) evs).

Definition appended (w : World) : list Segment := appended_of (calls w).

Definition init (mime : string) (d : gmap nat Element) : World :=
  mkWorld (new mime) d [].

(** The queue is only filled while direct feed is off. *)
Definition queue_guarded (w : World) : Prop :=
  directFeed (this w) = true -> dataQueue (this w) = [].

(** The segments accepted by the primitive followed by those waiting. *)
Definition pending (w : World) : list Segment :=
  (appended w ++ dataQueue (this w))%list.

(** The error [feed] throws when its checks fail. *)
Definition feed_rejection (w : World) : JS.Error :=
  match attachedEl (this w) with
  | None => NotAttachedError
  | Some _ => InvalidStateError (readyState (this w))
  end.

(** The upper end of the evicted range as the specification words it:
    [max(1, bufferedEnd - MIN_RETAIN)]. *)
Definition spec_evict_end (bufferedEnd : Q) : Q :=
  Qmax 1 (bufferedEnd - BUFFER_MIN_REMAIN).

End Player.

Arguments Player P : clear implicits.
Arguments World P : clear implicits.
Arguments Event P : clear implicits.
Arguments M P A : clear implicits.

End MediaSourcePlayer.

(** ** A scripted source buffer

    A primitive for running the player on concrete inputs: [script] lists
    the outcomes of the next [appendBuffer] calls (an empty script accepts),
    and [async] tells whether an accepted append or a removal leaves the
    buffer updating, as a browser does. *)

Module FakeSourceBuffer.

Import MediaSourcePlayer.

Record Fake := mkFake {
  busy : bool;
  buffered : option Q;
  script : list (option JS.Error);
  async : bool
}.

Definition QuotaExceededError : JS.Error :=
  JS.mkErr "QuotaExceededError" "The quota has been exceeded.".

Definition IndexSizeError : JS.Error :=
  JS.mkErr "IndexSizeError" "The index is not in the allowed range.".

Definition fake_appendBuffer (data : Segment) (f : Fake) : option JS.Error * Fake :=
  match script f with
  | Some e :: rest => (Some e, mkFake (busy f) (buffered f) rest (async f))
  | None :: rest => (None, mkFake (async f) (buffered f) rest (async f))
  | [] => (None, mkFake (async f) (buffered f) [] (async f))
  end.

Definition fake_buffered_end (f : Fake) : JS.Error + Q :=
  match buffered f with
  | Some t => inr t
  | None => inl IndexSizeError
  end.

Definition fake_remove (from to : Q) (f : Fake) : option JS.Error * Fake :=
  (None, mkFake (async f) (buffered f) (script f) (async f)).

#[export] Instance fake_SourceBuffer : SourceBuffer Fake := {|
  updating := busy;
  appendBuffer := fake_appendBuffer;
  buffered_end := fake_buffered_end;
  remove := fake_remove;
  set_mode_sequence := fun f => f
|}.

(** An idle, empty buffer of a browser. *)
Definition fresh : Fake := mkFake false None [] true.

(** An [audio] element before anything is attached to it. *)
Definition audio : Element := mkElement None 0%Q true false None.

Definition document : gmap nat Element := {[ 0%nat := audio ]}.

End FakeSourceBuffer.

(** ** AudioProxy *)

Module AudioProxy.

(** The text [handshake] sends. The parameters default to ['opus'],
    [96000], [48000] and [null]. *)
Definition handshakeMsg (codec bitrate sampleRate secret : JS.Value) : string :=
  let codec := JS.default_param codec (JS.Str "opus") in
  let bitrate := JS.default_param bitrate (JS.Num 96000) in
  let sampleRate := JS.default_param sampleRate (JS.Num 48000) in
  let secret := JS.default_param secret JS.Null in
  let handshakeMsg :=
    "CD:" +:+ JS.to_string codec +:+ JS.LF +:+
    "BR:" +:+ JS.to_string bitrate +:+ JS.LF +:+
    "SR:" +:+ JS.to_string sampleRate +:+ JS.LF +:+ JS.LF in
  let handshakeMsg :=
    if JS.not_null secret
    then handshakeMsg +:+ ("sec:" +:+ JS.to_string secret)
    else handshakeMsg in
  handshakeMsg +:+ JS.LF.

(** What the 'message' listener of the handshake does with the reply:
    it resolves the promise or throws. Nothing rejects the promise. *)
Inductive Reply :=
| Resolve
| Throw (err : JS.Error).

Definition on_message (data : string) : Reply :=
  let resp := JS.trim data in
  if String.eqb resp "READY" then Resolve
  else if JS.startsWith resp "ERR:" then
    Throw (JS.new_Error ("Proxy error: " +:+ JS.substring 4 resp))
  else Throw (JS.new_Error "Protocol error").

End AudioProxy.

(** ** AudioPlugin *)

Module AudioPlugin.

Import Handler Handler.Notations.

Module MSP := MediaSourcePlayer.

Definition DQ : string := String (Ascii.ascii_of_nat 34) "".

(** The 'message' listeners the script registers on a socket: the [once]
    listener of a handshake promise, awaited by the 'open' handler of
    socket [owner], and the listener forwarding to [feed]. *)
Inductive Listener :=
| HandshakeReply (owner : nat)
| Forward.

Definition Listener_eqb (a b : Listener) : bool :=
  match a, b with
  | HandshakeReply i, HandshakeReply j => (i =? j)%nat
  | Forward, Forward => true
  | _, _ => false
  end.

(** Where the async 'open' handler of a socket stands: not run yet,
    suspended at [await this.msp.attach(...)] of the player it created,
    suspended at [await AudioProxy.handshake(...)], or finished. *)
Inductive OpenHandler :=
| Registered
| AwaitAttach (player : nat)
| AwaitHandshake
| Returned.

(** A socket with the variables its listeners close over ([codec],
    [bitrate], [samplerate] and [mime] of the [startAudio] call that
    created it). *)
Record Socket := mkSocket {
  url : string;
  binaryType : string;
  onmessage : list Listener;
  codec : JS.Value;
  bitrate : JS.Value;
  samplerate : JS.Value;
  mime : string;
  onopen : OpenHandler
}.

(** What the plugin does to its surroundings, in order. [Uncaught] is an
    exception that left a listener or an async handler. *)
Inductive Effect :=
| ShowStatus (text : string) (type : JS.Value)
| Detach (player : nat)
| Close (socket : nat)
| Send (socket : nat) (msg : string)
| DisableOptions (disable : bool)
| Uncaught (err : JS.Error).

Section Plugin.

Context {P : Type} `{MSP.SourceBuffer P}.

(** The plugin object ([msp], [ws], [audioEl]) with the objects it has
    created (players and sockets are referred to by their index), the
    document, the host UI ([settings], [connected]) and the one-shot
    click listeners armed on the document body. *)
Record World := mkWorld {
  msp : option nat;
  ws : option nat;
  audioEl : nat;
  players : list (MSP.Player P);
  sockets : list Socket;
  dom : gmap nat MSP.Element;
  calls : list MSP.Call;
  settings : gmap string JS.Value;
  connected : bool;
  armed : nat;
  effects : list Effect
}.

Definition M (A : Type) : Type := Handler.M World A.

Definition set_msp (m : option nat) (w : World) : World :=
  mkWorld m (ws w) (audioEl w) (players w) (sockets w) (dom w) (calls w)
          (settings w) (connected w) (armed w) (effects w).

Definition set_ws (s : option nat) (w : World) : World :=
  mkWorld (msp w) s (audioEl w) (players w) (sockets w) (dom w) (calls w)
          (settings w) (connected w) (armed w) (effects w).

Definition set_players (ps : list (MSP.Player P)) (w : World) : World :=
  mkWorld (msp w) (ws w) (audioEl w) ps (sockets w) (dom w) (calls w)
          (settings w) (connected w) (armed w) (effects w).

Definition set_sockets (ss : list Socket) (w : World) : World :=
  mkWorld (msp w) (ws w) (audioEl w) (players w) ss (dom w) (calls w)
          (settings w) (connected w) (armed w) (effects w).

Definition set_dom (d : gmap nat MSP.Element) (w : World) : World :=
  mkWorld (msp w) (ws w) (audioEl w) (players w) (sockets w) d (calls w)
          (settings w) (connected w) (armed w) (effects w).

Definition set_calls (cs : list MSP.Call) (w : World) : World :=
  mkWorld (msp w) (ws w) (audioEl w) (players w) (sockets w) (dom w) cs
          (settings w) (connected w) (armed w) (effects w).

Definition set_settings (st : gmap string JS.Value) (w : World) : World :=
  mkWorld (msp w) (ws w) (audioEl w) (players w) (sockets w) (dom w) (calls w)
          st (connected w) (armed w) (effects w).

Definition set_connected (c : bool) (w : World) : World :=
  mkWorld (msp w) (ws w) (audioEl w) (players w) (sockets w) (dom w) (calls w)
          (settings w) c (armed w) (effects w).

Definition set_armed (n : nat) (w : World) : World :=
  mkWorld (msp w) (ws w) (audioEl w) (players w) (sockets w) (dom w) (calls w)
          (settings w) (connected w) n (effects w).

Definition effect (e : Effect) : M unit :=
  modify (fun w =>
    mkWorld (msp w) (ws w) (audioEl w) (players w) (sockets w) (dom w) (calls w)
            (settings w) (connected w) (armed w) (effects w ++ [e])%list).

Definition upd_socket (s : nat) (f : Socket -> Socket) : M unit :=
  modify (fun w => set_sockets (alter f s (sockets w)) w).

Definition add_listener (s : nat) (l : Listener) : M unit :=
  upd_socket s (fun k =>
    mkSocket (url k) (binaryType k) (onmessage k ++ [l])%list (codec k)
             (bitrate k) (samplerate k) (mime k) (onopen k)).

Fixpoint remove_first (l : Listener) (ls : list Listener) : list Listener :=
  match ls with
  | [] => []
  | l' :: ls' => if Listener_eqb l l' then ls' else l' :: remove_first l ls'
  end.

Definition remove_listener (s : nat) (l : Listener) : M unit :=
  upd_socket s (fun k =>
    mkSocket (url k) (binaryType k) (remove_first l (onmessage k)) (codec k)
             (bitrate k) (samplerate k) (mime k) (onopen k)).

Definition set_onopen (s : nat) (o : OpenHandler) : M unit :=
  upd_socket s (fun k =>
    mkSocket (url k) (binaryType k) (onmessage k) (codec k)
             (bitrate k) (samplerate k) (mime k) o).

(** [NVUI.getSetting(name)] *)
Definition getSetting (w : World) (name : string) : JS.Value :=
  default JS.Null (settings w !! name).

(** [NVUI.showStatus(text, type)] *)
Definition showStatus (text : string) (type : JS.Value) : M unit :=
  effect (ShowStatus text type).

(** A method call on player [k], in the document and on the call
    record of the plugin's world. *)
Definition on_player {A} (k : nat) (m : MSP.M P A) : M A :=
  fun w =>
    match players w !! k with
    | None => (inl (JS.TypeError "no such player"), w)
    | Some p =>
        let r := m (MSP.mkWorld p (dom w) (calls w)) in
        (fst r,
         set_calls (MSP.calls (snd r))
           (set_dom (MSP.dom (snd r))
              (set_players (<[k := MSP.this (snd r)]> (players w)) w)))
    end.

(** A method call on [this.msp]. *)
Definition on_msp {A} (m : MSP.M P A) : M A :=
  w <- get ;;
  match msp w with
  | None => throw (JS.TypeError "this.msp is null")
  | Some k => on_player k m
  end.

(** async stopAudio() *)
Definition stopAudio : M unit :=
  w <- get ;;
  match msp w with
  | Some k =>
      effect (Detach k) ;;
      on_player k MSP.detach ;;
      modify (set_msp None)
  | None => ret tt
  end ;;
  w <- get ;;
  match ws w with
  | Some s =>
      effect (Close s) ;;
      modify (set_ws None)
  | None => ret tt
  end.

(** AudioProxy.handshake(socket, codec, bitrate, sampleRate, secret),
    called from the 'open' handler of socket [owner]: the message is
    sent and the [once] listener for the reply is registered. *)
Definition handshake (owner : nat) (socket : option nat)
    (codec bitrate sampleRate secret : JS.Value) : M unit :=
  match socket with
  | None => throw (JS.TypeError "socket is null")
  | Some s =>
      effect (Send s (AudioProxy.handshakeMsg codec bitrate sampleRate secret)) ;;
      add_listener s (HandshakeReply owner)
  end.

(** async startAudio() *)
Definition startAudio : M unit :=
  w <- get ;;
  match msp w with
  | Some _ => ret tt
  | None =>
      let codec := getSetting w "audio_codec" in
      let bitrate := getSetting w "audio_bitrate" in
      let samplerate := getSetting w "audio_samplerate" in
      mime <- (if JS.strict_eq codec (JS.Str "opus") then
                 ret ("audio/webm; codecs=" +:+ DQ +:+ "opus" +:+ DQ)
               else if JS.strict_eq codec (JS.Str "aac") then
                 ret ("audio/mp4; codecs=" +:+ DQ +:+ "mp4a.40.2" +:+ DQ)
               else
                 throw (JS.new_Error ("Unsupported codec " +:+ JS.to_string codec))) ;;
      let wsSchema := if JS.truthy (getSetting w "audio_encrypt")
                      then "wss://" else "ws://" in
      let wsHost := getSetting w "audio_host" in
      let wsPort := getSetting w "audio_port" in
      let wsPath := getSetting w "audio_path" in
      let socket :=
        mkSocket (wsSchema +:+ JS.to_string wsHost +:+ ":" +:+ JS.to_string wsPort
                  +:+ "/" +:+ JS.to_string wsPath)
                 "arraybuffer" [] codec bitrate samplerate mime Registered in
      modify (fun w => set_ws (Some (length (sockets w)))
                         (set_sockets (sockets w ++ [socket])%list w))
  end.

(** The 'error' listener of a socket. *)
Definition on_error : M unit :=
  w <- get ;;
  (if connected w
   then showStatus "Audio WebSocket connection failed" (JS.Str "error")
   else ret tt) ;;
  stopAudio.

(** The 'close' listener of a socket. *)
Definition on_close : M unit :=
  w <- get ;;
  match msp w with
  | None => ret tt
  | Some _ =>
      (if connected w
       then showStatus "Audio WebSocket connection closed" (JS.Str "error")
       else ret tt) ;;
      stopAudio
  end.

(** The 'open' listener of socket [s], up to its first [await]. *)
Definition on_open (s : nat) : M unit :=
  w <- get ;;
  match sockets w !! s with
  | None => ret tt
  | Some k =>
      try_catch
        (modify (fun w => set_msp (Some (length (players w)))
                            (set_players (players w ++ [MSP.new (mime k)])%list w)) ;;
         on_msp (MSP.attach (audioEl w)) ;;
         w' <- get ;;
         match msp w' with
         | Some player => set_onopen s (AwaitAttach player)
         | None => ret tt
         end)
        (fun err =>
           showStatus ("MediaSource initialization failed: " +:+ JS.message err)
                      JS.Undefined ;;
           stopAudio ;;
           set_onopen s Returned)
  end.

(** The handler of socket [s] resumes once [attach] has resolved, and
    runs up to [await AudioProxy.handshake(...)]. *)
Definition after_attach (s : nat) : M unit :=
  w <- get ;;
  match sockets w !! s with
  | None => ret tt
  | Some k =>
      try_catch
        (handshake s (ws w) (codec k) (bitrate k) (samplerate k) JS.Undefined ;;
         set_onopen s AwaitHandshake)
        (fun err =>
           showStatus ("Audio handshake failed: " +:+ JS.message err)
                      (JS.Str "error") ;;
           stopAudio ;;
           set_onopen s Returned)
  end.

(** The handler of socket [s] resumes once the handshake promise has
    resolved, and runs to its end. *)
Definition after_handshake (s : nat) : M unit :=
  set_onopen s Returned ;;
  w <- get ;;
  match ws w with
  | None => throw (JS.TypeError "this.ws is null")
  | Some t =>
      add_listener t Forward ;;
      modify (fun w => set_armed (S (armed w)) w)
  end.

(** [textDec.decode(msg.data)]: the text, as its UTF-8 bytes. The bytes
    received are taken to be well-formed UTF-8, which the decoder leaves
    as they are but for a byte order mark at the start, white space that
    [trim] drops as well. *)
Definition decode (data : MSP.Segment) : string := String.string_of_list_byte data.

(** A 'message' listener of socket [s] receiving [data]. *)
Definition on_message (s : nat) (data : MSP.Segment) (l : Listener) : M unit :=
  match l with
  | HandshakeReply owner =>
      remove_listener s l ;;
      match AudioProxy.on_message (decode data) with
      | AudioProxy.Resolve => after_handshake owner
      | AudioProxy.Throw err => throw err
      end
  | Forward =>
      try_catch
        (on_msp (MSP.feed data))
        (fun err =>
           showStatus ("Audio failure: " +:+ JS.message err) (JS.Str "error") ;;
           stopAudio)
  end.

(** Runs a listener; an exception that leaves it is reported and
    changes nothing else. *)
Definition listener (m : M unit) : M unit :=
  try_catch m (fun err => effect (Uncaught err)).

Fixpoint dispatch (s : nat) (data : MSP.Segment) (ls : list Listener) : M unit :=
  match ls with
  | [] => ret tt
  | l :: ls' => listener (on_message s data l) ;; dispatch s data ls'
  end.

(** A message arrives on socket [s]: the listeners registered at that
    time run in the order of their registration. *)
Definition fire_message (s : nat) (data : MSP.Segment) : M unit :=
  w <- get ;;
  match sockets w !! s with
  | None => ret tt
  | Some k => dispatch s data (onmessage k)
  end.

(** 'sourceopen' on the media source of player [k]: the player's
    listeners run, and the 'open' handlers awaiting its [attach]
    resume. *)
Definition awaits_attach (k : nat) (i : nat) (sk : Socket) : list nat :=
  match onopen sk with
  | AwaitAttach k' => if (k =? k')%nat then [i] else []
  | _ => []
  end.

Fixpoint resume_all (ss : list nat) : M unit :=
  match ss with
  | [] => ret tt
  | s :: ss' => listener (after_attach s) ;; resume_all ss'
  end.

Definition fire_sourceopen (k : nat) (p0 : P) : M unit :=
  w <- get ;;
  match players w !! k with
  | None => ret tt
  | Some p =>
      on_player k (MSP.fire_sourceopen p0) ;;
      if MSP.attachPending p
      then resume_all (concat (imap (awaits_attach k) (sockets w)))
      else ret tt
  end.

(** [audioEl.play()] fulfilled: the element plays and its 'play'
    listener runs. *)
Definition played (el : MSP.Element) : MSP.Element :=
  let el := MSP.mkElement (MSP.src el) (MSP.currentTime el) false
                          (MSP.playListener el) (MSP.seekable_end el) in
  if MSP.playListener el then MSP.playEventHandler el else el.

(** async onClickPlayHandler(); [outcome] is what [play()] settles to. *)
Definition onClickPlayHandler (outcome : option JS.Error) : M unit :=
  match outcome with
  | None => modify (fun w => set_dom (alter played (audioEl w) (dom w)) w)
  | Some err =>
      (if negb (String.eqb (JS.name err) "AbortError")
       then showStatus ("Audio playback failed: " +:+ JS.message err) (JS.Str "error")
       else ret tt) ;;
      stopAudio
  end.

Fixpoint repeat_handler (n : nat) (m : M unit) : M unit :=
  match n with
  | O => ret tt
  | S n' => listener m ;; repeat_handler n' m
  end.

(** A click on the document: every armed one-shot listener runs. *)
Definition fire_click (outcome : option JS.Error) : M unit :=
  w <- get ;;
  modify (set_armed 0) ;;
  repeat_handler (armed w) (onClickPlayHandler outcome).

(** The callback of [NV.observeState('connected', ...)] *)
Definition on_connected : M unit :=
  w <- get ;;
  if negb (JS.truthy (getSetting w "audio_enabled")) then ret tt
  else
    effect (DisableOptions true) ;;
    try_catch startAudio
      (fun err => showStatus ("Audio setup failed: " +:+ JS.message err)
                             (JS.Str "error")).

(** The callback of [NV.observeState('disconnected', ...)] *)
Definition on_disconnected : M unit :=
  stopAudio ;;
  effect (DisableOptions false).

(** *** The plugin in its environment *)
Inductive Event :=
| VncConnected
| VncDisconnected
| WsOpen (s : nat)
| WsError (s : nat)
| WsClose (s : nat)
| WsMessage (s : nat) (data : MSP.Segment)
| SourceOpen (k : nat) (p0 : P)
| ReadyStateChange (k : nat) (r : MSP.ReadyState)
| Progress (k : nat) (p' : P)
| UpdateEnd (k : nat)
| Click (outcome : option JS.Error)
| Setting (name : string) (v : JS.Value).

Definition step (ev : Event) : M unit :=
  match ev with
  | VncConnected => modify (set_connected true) ;; on_connected
  | VncDisconnected => modify (set_connected false) ;; on_disconnected
  | WsOpen s => on_open s
  | WsError s => on_error
  | WsClose s => on_close
  | WsMessage s data => fire_message s data
  | SourceOpen k p0 => fire_sourceopen k p0
  | ReadyStateChange k r => on_player k (MSP.step (MSP.EvReadyState r))
  | Progress k p' => on_player k (MSP.step (MSP.EvProgress p'))
  | UpdateEnd k => on_player k (MSP.step MSP.EvUpdateEnd)
  | Click outcome => fire_click outcome
  | Setting name v => modify (fun w => set_settings (<[name := v]> (settings w)) w)
  end.

Fixpoint run (evs : list Event) (w : World) : World :=
  match evs with
  | [] => w
  | ev :: evs' => run evs' (snd (listener (step ev) w))
  end.

(** The state after [load()]: [audioEl] is the element [initUi] has
    created. *)
Definition init (audioEl : nat) (d : gmap nat MSP.Element)
    (st : gmap string JS.Value) : World :=
  {| msp := None; ws := None; audioEl := audioEl; players := [];
     sockets := []; dom := d; calls := []; settings := st;
     connected := false; armed := 0; effects := [] |}.

(** [this.msp] refers to a player that exists. *)
Definition wf (w : World) : Prop :=
  match msp w with
  | Some k => (k < length (players w))%nat
  | None => True
  end.

(** A handler maintains an invariant of the world, whether it returns
    or throws. *)
Definition keeps (I : World -> Prop) {A} (m : M A) : Prop :=
  forall w, I w -> I (snd (m w)).

End Plugin.

Arguments World P : clear implicits.
Arguments Event P : clear implicits.
Arguments M P A : clear implicits.

End AudioPlugin.

(** ** Concrete runs

    States reached by the scripted source buffer, used to evaluate the
    script on concrete inputs. *)

Module Scenario.

Import FakeSourceBuffer.

Module MSP := MediaSourcePlayer.
Module AP := AudioPlugin.

Definition seg1 : MSP.Segment := [Byte.x01].
Definition seg2 : MSP.Segment := [Byte.x02].

Definition opus : string := "audio/webm; codecs=" +:+ AP.DQ +:+ "opus" +:+ AP.DQ.

Definition created : MSP.World Fake := MSP.init opus document.

(** A buffer holding [bufferEnd] seconds whose next append exceeds the
    quota. *)
Definition full (bufferEnd : Q) : Fake :=
  mkFake false (Some bufferEnd) [Some QuotaExceededError] true.

(** [attach] called, 'sourceopen' not yet dispatched. *)
Definition attaching : MSP.World Fake :=
  fst (MSP.run [MSP.EvAttach 0] created).

(** Attached and open, nothing fed. *)
Definition attached : MSP.World Fake :=
  fst (MSP.run [MSP.EvAttach 0; MSP.EvSourceOpen fresh] created).

(** Attached and open on a full buffer, nothing fed. *)
Definition attached_full : MSP.World Fake :=
  fst (MSP.run [MSP.EvAttach 0; MSP.EvSourceOpen (full 100)] created).

(** [seg1] appended, [seg2] queued, and the buffer, now idle, holds
    [bufferEnd] seconds and is full. *)
Definition queued (bufferEnd : Q) : MSP.World Fake :=
  fst (MSP.run [MSP.EvAttach 0; MSP.EvSourceOpen fresh; MSP.EvFeed seg1;
                MSP.EvFeed seg2; MSP.EvProgress (full bufferEnd)] created).

(** The settings of the host UI, with a secret. *)
Definition ui_settings : gmap string JS.Value :=
  list_to_map
    [("audio_enabled", JS.Bool true);
     ("audio_codec", JS.Str "opus");
     ("audio_bitrate", JS.Str "96000");
     ("audio_samplerate", JS.Str "48000");
     ("audio_secret", JS.Str "s3cret");
     ("audio_encrypt", JS.Bool false);
     ("audio_host", JS.Str "localhost");
     ("audio_port", JS.Str "6080");
     ("audio_path", JS.Str "websockify?token=audio")].

Definition loaded : AP.World Fake := AP.init 0 document ui_settings.

(** Connected, socket open, player attached, handshake sent. *)
Definition handshaking (p0 : Fake) : AP.World Fake :=
  AP.run [AP.VncConnected; AP.WsOpen 0; AP.SourceOpen 0 p0] loaded.

Definition text (s : string) : MSP.Segment := String.list_byte_of_string s.

(** The replies of the proxy, as [echo] writes them. *)
Definition READY : MSP.Segment := text ("READY" +:+ JS.LF).
Definition ERR_bad_secret : MSP.Segment := text ("ERR:bad secret" +:+ JS.LF).

(** The handshake message for these settings when no secret is passed. *)
Definition hello : string :=
  "CD:opus" +:+ JS.LF +:+ "BR:96000" +:+ JS.LF +:+ "SR:48000" +:+ JS.LF
  +:+ JS.LF +:+ JS.LF.

(** The socket of [handshaking]. *)
Definition socket0 : AP.Socket :=
  AP.mkSocket "ws://localhost:6080/websockify?token=audio" "arraybuffer"
              [AP.HandshakeReply 0] (JS.Str "opus") (JS.Str "96000")
              (JS.Str "48000") opus AP.AwaitHandshake.

(** Handshake done, messages forwarded to [feed]. *)
Definition streaming (p0 : Fake) : AP.World Fake :=
  AP.run [AP.WsMessage 0 READY] (handshaking p0).

End Scenario.

(** ** The audio proxy: the handshake read by [proxy()]

    The shell function reads the handshake from its standard input, which
    here is the bytes the client has sent, followed by the end of input.
    The script runs under dash, whose [echo] rewrites the escape sequences
    of its argument and takes a first argument [-n] for an option: the
    model follows [echo] on an argument without a backslash other than
    [-n], which is printed unchanged, and gives no answer ([None]) when
    another argument reaches [echo]. Command substitution drops the
    trailing newlines of what it captures. The variables [secret] and
    [line] are taken to be unset when the function starts, and the input
    and the secret file to hold no NUL byte. *)

Module Proxy.

Definition is_colon (c : Ascii.ascii) : bool :=
  Ascii.eqb c (Ascii.ascii_of_nat 58).



(** The first [case]: whether the line holds a colon. *)
Fixpoint has_colon (line : string) : bool :=
  match line with
  | "" => false
  | String c l => is_colon c || has_colon l
  end.


Fixpoint after_colon (line : string) : string :=
  match line with
  | "" => ""
  | String c l => if is_colon c then l else after_colon l
  end.

(** [cut -d ':' -f 2-]: the text after the first colon; the whole line
    when it has no colon. *)
Definition cut_f2 (line : string) : string :=
  if has_colon line then after_colon line else line.




(** No colon, so that the text is a whole field for [cut]. *)
Definition colon_free (s : string) : bool := negb (has_colon s).











End Proxy.

(** ** Schedules of events for a player *)

Module Schedule.

Import MediaSourcePlayer.

Section Schedule.

Context {P : Type} `{SourceBuffer P}.

(** [feed] called on each segment in turn. *)
Definition feeds (ds : list Segment) : list (Event P) := map EvFeed ds.

(** The primitive finishes what it was doing, once per element of [ps]:
    it reaches that state and dispatches 'updateend'. *)
Definition completions (ps : list P) : list (Event P) :=
  flat_map (fun p => [EvProgress p; EvUpdateEnd]) ps.

(** The primitive is idle, and accepts whatever is appended to it. *)
Definition accepting (p : P) : Prop :=
  updating p = false /\ forall data, fst (appendBuffer data p) = None.

End Schedule.

End Schedule.

(** ** What ending a session does *)

Module Session.

Import AudioPlugin.

(** The effects of [stopAudio]: detaching the player in [msp], if any,
    and closing the socket in [ws], if any. *)
Definition teardown {P : Type} (w : World P) : list Effect :=
  (match msp w with Some k => [Detach k] | None => [] end
   ++ match ws w with Some s => [Close s] | None => [] end)%list.

(** The statuses among the effects. *)
Definition statuses (es : list Effect) : list Effect :=
  List.filter (fun e => match e with ShowStatus _ _ => true | _ => false end) es.

End Session.

(** * Properties of [MediaSourcePlayer] *)

Section PlayerProperties.

Import Handler MediaSourcePlayer.

Context {P : Type} `{SourceBuffer P}.

Implicit Types (w : World P) (data : Segment).

Lemma appended_of_snoc (cs : list Call) (c : Call) :
  appended_of (cs ++ [c]) = (appended_of cs ++ appended_by c)%list.
Proof.
  unfold appended_of. rewrite map_app, concat_app. simpl.
  now rewrite app_nil_r.
Qed.

Ltac run_monad :=
  unfold bind, ret, throw, get, modify, try_catch, shift, push,
    sb_updating, sb_appendBuffer, sb_remove, sb_buffered_end,
    record_call, upd_this, upd_dom, appended in *; simpl in *.

Ltac close_order :=
  simpl; rewrite ?appended_of_snoc; simpl;
  rewrite ?app_nil_r, <- ?app_assoc; simpl;
  solve [ auto | split; [reflexivity | discriminate] ].

Lemma feed_order data w :
  queue_guarded w ->
  let r := feed data w in
  pending (snd r) = (pending w ++ accepted_by (P:=P) (EvFeed data) (fst r))%list
  /\ queue_guarded (snd r).
Proof.
  unfold queue_guarded, pending, feed. intros Hg. run_monad.
  destruct w as [[m rs sb df q el ol ap] d cs]; simpl in *.
  destruct el; [|close_order].
  destruct (is_open rs); [|close_order].
  destruct df; [|close_order].
  specialize (Hg eq_refl). subst q.
  destruct sb as [p|]; [|close_order].
  simpl. destruct (appendBuffer data p) as [[e|] p'] eqn:Ha; [close_order|].
  simpl. destruct (updating p'); close_order.
Qed.

Lemma updateend_order w :
  queue_guarded w ->
  let r := on_updateend w in
  pending (snd r) = pending w /\ queue_guarded (snd r).
Proof.
  unfold queue_guarded, pending, on_updateend. intros Hg. run_monad.
  destruct w as [[m rs sb df q el ol ap] d cs]; simpl in *.
  destruct sb as [p|]; [|close_order].
  destruct (updating p); [close_order|].
  destruct q as [|data q]; [close_order|].
  assert (df = false) as -> by (destruct df; [now specialize (Hg eq_refl)|easy]).
  simpl. destruct (appendBuffer data p) as [[e|] p1] eqn:Ha; [|close_order].
  simpl. destruct (String.eqb (JS.name e) "QuotaExceededError"); [|close_order].
  simpl. destruct (buffered_end p1) as [e1|bufferEnd]; [close_order|].
  simpl. destruct (remove 0%Q (evict_end bufferEnd) p1) as [[e2|] p2] eqn:Hr;
    [close_order|].
  simpl. destruct (updating p2); [close_order|].
  simpl. destruct (appendBuffer data p2) as [[e3|] p3] eqn:Ha2; close_order.
Qed.

Lemma step_order (ev : Event P) w :
  queue_guarded w ->
  let r := step ev w in
  pending (snd r) = (pending w ++ accepted_by ev (fst r))%list
  /\ queue_guarded (snd r).
Proof.
  intros Hg. destruct ev as [element| |data|p0|rs|p'|]; simpl.
  - unfold attach, pending, queue_guarded in *. run_monad.
    destruct (attachedEl (this w)); simpl; now rewrite app_nil_r.
  - unfold detach, pending, queue_guarded in *. run_monad.
    destruct (attachedEl (this w)); simpl; now rewrite app_nil_r.
  - now apply feed_order.
  - unfold fire_sourceopen, on_sourceopen, pending, queue_guarded in *. run_monad.
    destruct (openListener (this w)); simpl; now rewrite app_nil_r.
  - unfold pending, queue_guarded in *. run_monad. now rewrite app_nil_r.
  - unfold progress, pending, queue_guarded in *. run_monad.
    destruct (sourceBuffer (this w)); simpl; now rewrite app_nil_r.
  - rewrite app_nil_r.
    assert (fire_updateend w
            = match sourceBuffer (this w) with
              | Some _ => on_updateend w
              | None => (inr tt, w)
              end) as ->
      by (unfold fire_updateend, bind, get; simpl;
          now destruct (sourceBuffer (this w))).
    destruct (sourceBuffer (this w)); [now apply updateend_order | easy].
Qed.

Lemma run_order (evs : list (Event P)) w :
  queue_guarded w ->
  let r := run evs w in
  pending (fst r) = (pending w ++ snd r)%list /\ queue_guarded (fst r).
Proof.
  revert w. induction evs as [|ev evs IH]; intros w Hg; simpl.
  - now rewrite app_nil_r.
  - destruct (step_order ev w Hg) as [Hs Hg'].
    destruct (IH _ Hg') as [Hr Hg2]. simpl in *.
    split; [|easy]. now rewrite Hr, Hs, app_assoc.
Qed.



(** *** Quota recovery in the 'updateend' listener *)

Lemma evict_end_positive (bufferEnd : Q) : (0 < evict_end bufferEnd)%Q.
Proof.
  unfold evict_end.
  destruct (Qle_bool (bufferEnd - BUFFER_MIN_REMAIN) 0) eqn:Hle; [reflexivity|].
  apply Qnot_le_lt. intros Hc. apply Qle_bool_iff in Hc. congruence.
Qed.

(** C2 (amended). When the append of the queued head [data] throws a
    QuotaExceededError, the listener calls [remove] exactly once, on the
    range from [0] to [removeEnd = bufferEnd - BUFFER_MIN_REMAIN], or to
    [1] when [removeEnd <= 0] (so the range is never empty). It appends
    [data] once more exactly when that removal returned and left the
    buffer not updating, and [data] leaves the head of the queue only
    when this second append is accepted. *)
Theorem quota_eviction_and_retry w (p p1 : P) data (rest : list Segment)
    (e : JS.Error) (bufferEnd : Q) :
  sourceBuffer (this w) = Some p ->
  updating p = false ->
  dataQueue (this w) = data :: rest ->
  appendBuffer data p = (Some e, p1) ->
  JS.name e = "QuotaExceededError" ->
  buffered_end p1 = inr bufferEnd ->
  let removeEnd := (bufferEnd - BUFFER_MIN_REMAIN)%Q in
  let to := if Qle_bool removeEnd 0 then 1%Q else removeEnd in
  let evicted := remove 0%Q to p1 in
  let retried :=
    match fst evicted with
    | None => negb (updating (snd evicted))
    | Some _ => false
    end in
  let retry := appendBuffer data (snd evicted) in
  let w' := snd (on_updateend w) in
  (0 < to)%Q
  /\ calls w' =
       (calls w ++ [CallAppend data (Some e); CallRemove 0%Q to (fst evicted)]
                ++ (if retried then [CallAppend data (fst retry)] else []))%list
  /\ dataQueue (this w') =
       (if retried && bool_decide (fst retry = None) then rest else data :: rest).
Proof.
  intros Hsb Hup Hq Ha Hname Hend. cbv zeta.
  split; [apply evict_end_positive|].
  unfold on_updateend. run_monad.
  destruct w as [[m rs sb df q el ol ap] d cs]; simpl in *. subst sb q.
  rewrite Hup. simpl. rewrite Ha. simpl. rewrite Hname. simpl.
  rewrite Hend. simpl. fold (evict_end bufferEnd).
  destruct (remove 0%Q (evict_end bufferEnd) p1) as [[e2|] p2] eqn:Hr; simpl.
  - now rewrite <- app_assoc.
  - destruct (updating p2); simpl; [now rewrite <- app_assoc|].
    destruct (appendBuffer data p2) as [[e3|] p3] eqn:Ha2; simpl;
      now rewrite <- !app_assoc.
Qed.

(** *** attach, detach and the checks of feed *)

Lemma detach_dom_idem (element : nat) (d : gmap nat Element) :
  let f := fun el => mkElement None 0%Q true false (seekable_end el) in
  alter f element (alter f element d) = alter f element d.
Proof.
  intros f. rewrite alter_alter_eq. apply alter_ext. reflexivity.
Qed.

Lemma detach_returns w : fst (detach w) = inr tt.
Proof.
  unfold detach. run_monad. now destruct (attachedEl (this w)).
Qed.

(** C7 (amended). [detach()] never throws, and a second [detach()] in a
    row changes nothing more. It does not reset [#attachedEl]: after
    [detach()], [attach] succeeds exactly when the instance has never
    been attached, and throws 'Already attached to an element'
    otherwise. *)
Theorem detach_idempotent_keeps_attachment w (element : nat) :
  fst (detach w) = inr tt
  /\ detach (snd (detach w)) = (inr tt, snd (detach w))
  /\ fst (attach element (snd (detach w)))
     = match attachedEl (this w) with
       | None => inr tt
       | Some _ => inl AlreadyAttachedError
       end.
Proof.
  split; [apply detach_returns|].
  unfold detach, attach. run_monad.
  destruct w as [[m rs sb df q el ol ap] d cs]; simpl.
  destruct el as [e|]; simpl; [|easy].
  split; [|reflexivity]. now rewrite detach_dom_idem.
Qed.

(** C8 (amended). [feed] throws NotAttachedError when [attach] has not
    been called, and InvalidStateError when [attach] has been called but
    the media source is not open, which is the case until [attach]
    resolves. Either way the instance is left as it was: nothing is
    appended and the queue is unchanged. *)
Theorem feed_rejected_unchanged w data :
  attachedEl (this w) = None \/ is_open (readyState (this w)) = false ->
  feed data w = (inl (feed_rejection w), w).
Proof.
  unfold feed, feed_rejection. run_monad.
  destruct w as [[m rs sb df q el ol ap] d cs]; simpl.
  intros [->| ->]; [reflexivity|]. now destruct el.
Qed.

(** C9 (amended). [detach()] does not touch the queue: the segments
    queued when it is called are still queued when it returns, and it
    does not throw. *)
Theorem detach_keeps_queue w :
  fst (detach w) = inr tt
  /\ dataQueue (this (snd (detach w))) = dataQueue (this w)
  /\ calls (snd (detach w)) = calls w.
Proof.
  split; [apply detach_returns|].
  unfold detach. run_monad.
  now destruct (attachedEl (this w)).
Qed.

(** An exception of [appendBuffer] on the direct path leaves [feed] as it
    is, whatever its name: [feed] has no handler. *)
Lemma feed_direct_throws w (p p' : P) data (e : JS.Error) (element : nat) :
  attachedEl (this w) = Some element ->
  readyState (this w) = open ->
  directFeed (this w) = true ->
  sourceBuffer (this w) = Some p ->
  appendBuffer data p = (Some e, p') ->
  feed data w
  = (inl e, record_call (CallAppend data (Some e))
              (upd_this (set_sourceBuffer (Some p')) w)).
Proof.
  intros Hel Hrs Hdf Hsb Ha. unfold feed. run_monad.
  rewrite Hel, Hrs. simpl. rewrite Hdf, Hsb. simpl. now rewrite Ha.
Qed.

End PlayerProperties.

(** ** The player on concrete runs *)

Section PlayerRuns.

Import Handler MediaSourcePlayer FakeSourceBuffer Scenario.

(** C2, an instance: with 100 seconds buffered the listener removes
    [0, 70]; the removal leaves the scripted buffer updating, so the
    append is not retried and [seg2] stays at the head of the queue. *)
Lemma quota_eviction_and_retry_witness :
  (sourceBuffer (this (queued 100)) = Some (full 100)
   /\ updating (full 100) = false
   /\ dataQueue (this (queued 100)) = [seg2]
   /\ appendBuffer seg2 (full 100)
      = (Some QuotaExceededError, mkFake false (Some 100%Q) [] true)
   /\ JS.name QuotaExceededError = "QuotaExceededError"
   /\ buffered_end (mkFake false (Some 100%Q) [] true) = inr 100%Q)
  /\ calls (snd (on_updateend (queued 100)))
     = [CallAppend seg1 None; CallAppend seg2 (Some QuotaExceededError);
        CallRemove 0%Q 70%Q None]
  /\ dataQueue (this (snd (on_updateend (queued 100)))) = [seg2].
Proof.
  split; [repeat split|].
  destruct (quota_eviction_and_retry (H:=fake_SourceBuffer) (queued 100) (full 100)
              (mkFake false (Some 100%Q) [] true) seg2 [] QuotaExceededError 100%Q
              eq_refl eq_refl eq_refl eq_refl eq_refl eq_refl) as [_ [Hc Hq]].
  split; [exact Hc | exact Hq].
Defined.

(** C2, as stated, fails: with 30.5 seconds buffered the listener removes
    [0, 0.5], not [0, max(1, 0.5)] = [0, 1]. *)
Lemma quota_eviction_range_is_not_max :
  calls (snd (on_updateend (queued (61 # 2))))
  = [CallAppend seg1 None; CallAppend seg2 (Some QuotaExceededError);
     CallRemove 0%Q (1 # 2)%Q None]
  /\ ~ ((1 # 2) == spec_evict_end (61 # 2))%Q.
Proof.
  split; [reflexivity|].
  intros Heq. vm_compute in Heq. discriminate Heq.
Qed.

(** Three segments fed to a browser-like buffer: the first goes directly,
    the others wait for 'updateend', and all are appended in order. *)
Example feed_three_in_order :
  let r := run [EvFeed seg1; EvFeed seg2; EvFeed [Byte.x03];
                EvProgress fresh; EvUpdateEnd;
                EvProgress fresh; EvUpdateEnd;
                EvProgress fresh; EvUpdateEnd] attached in
  calls (fst r) = [CallAppend seg1 None; CallAppend seg2 None;
                   CallAppend [Byte.x03] None]
  /\ directFeed (this (fst r)) = true
  /\ snd r = [seg1; seg2; [Byte.x03]].
Proof. repeat split. Qed.

(** C3, on the direct path: the QuotaExceededError of [appendBuffer]
    leaves [feed]; [remove] is not called, the append is not retried and
    the segment is not queued. *)
Theorem feed_direct_quota_surfaces :
  fst (feed seg1 attached_full) = inl QuotaExceededError
  /\ calls (snd (feed seg1 attached_full))
     = [CallAppend seg1 (Some QuotaExceededError)]
  /\ dataQueue (this (snd (feed seg1 attached_full))) = [].
Proof. repeat split. Qed.

(** C7, as stated, fails: on an attached instance, [attach] after
    [detach] throws 'Already attached to an element'. *)
Lemma attach_after_detach_throws :
  fst (detach attached) = inr tt
  /\ fst (attach 0 (snd (detach attached))) = inl AlreadyAttachedError.
Proof. split; reflexivity. Qed.

(** C8, an instance: before [attach] is called. *)
Lemma feed_rejected_unchanged_witness :
  (attachedEl (this created) = None \/ is_open (readyState (this created)) = false)
  /\ feed seg1 created = (inl NotAttachedError, created).
Proof.
  split; [left; reflexivity|].
  apply (feed_rejected_unchanged created seg1). left; reflexivity.
Defined.

(** C8, as stated, fails: once [attach] has been called, and before it
    resolves, [feed] throws 'Bad MediaSource state: closed', not
    'Not attached to any elements'. *)
Lemma feed_while_attaching_is_invalid_state :
  attachPending (this attaching) = true
  /\ feed seg1 attaching = (inl (InvalidStateError closed), attaching)
  /\ InvalidStateError closed <> NotAttachedError.
Proof. repeat split. discriminate. Qed.

(** C9, as stated, fails: a segment queued before [detach()] is still
    queued after it. *)
Lemma detach_leaves_segment_queued :
  dataQueue (this (queued 100)) = [seg2]
  /\ fst (detach (queued 100)) = inr tt
  /\ dataQueue (this (snd (detach (queued 100)))) = [seg2].
Proof. repeat split. Qed.

End PlayerRuns.

(** * Properties of [AudioProxy] *)

Section HandshakeProperties.

Import AudioProxy.

Lemma append_assoc (a b c : string) : (a +:+ b) +:+ c = a +:+ (b +:+ c).
Proof.
  induction a as [|x a IH]; [reflexivity|].
  change (String x ((a +:+ b) +:+ c) = String x (a +:+ (b +:+ c))).
  now rewrite IH.
Qed.

(** C4. With codec 'opus', bitrate 96000, sample rate 48000 and no
    secret, the handshake message is the three parameter lines, an empty
    line and a final newline. With a secret that is not [null], the line
    'sec:' followed by the secret comes after the empty line and before
    the final newline, and nothing else changes. *)
Theorem handshake_message (codec bitrate sampleRate secret : JS.Value) :
  JS.not_null secret = true ->
  let params :=
    "CD:" +:+ JS.to_string (JS.default_param codec (JS.Str "opus")) +:+ JS.LF +:+
    "BR:" +:+ JS.to_string (JS.default_param bitrate (JS.Num 96000)) +:+ JS.LF +:+
    "SR:" +:+ JS.to_string (JS.default_param sampleRate (JS.Num 48000)) +:+ JS.LF in
  handshakeMsg (JS.Str "opus") (JS.Num 96000) (JS.Num 48000) JS.Null
  = "CD:opus" +:+ JS.LF +:+ "BR:96000" +:+ JS.LF +:+ "SR:48000" +:+ JS.LF
    +:+ JS.LF +:+ JS.LF
  /\ handshakeMsg codec bitrate sampleRate JS.Null
     = params +:+ JS.LF +:+ JS.LF
  /\ handshakeMsg codec bitrate sampleRate secret
     = params +:+ JS.LF +:+ "sec:" +:+ JS.to_string secret +:+ JS.LF.
Proof.
  intros Hs params. split; [reflexivity|]. unfold handshakeMsg, params.
  assert (JS.default_param secret JS.Null = secret) as ->
    by (destruct secret; simpl in *; congruence).
  rewrite Hs. simpl JS.not_null. cbv iota.
  rewrite !append_assoc. simpl. split; reflexivity.
Qed.

(** C4, an instance: the secret 's3cret'. *)
Lemma handshake_message_witness :
  JS.not_null (JS.Str "s3cret") = true
  /\ handshakeMsg (JS.Str "opus") (JS.Num 96000) (JS.Num 48000) (JS.Str "s3cret")
     = "CD:opus" +:+ JS.LF +:+ "BR:96000" +:+ JS.LF +:+ "SR:48000" +:+ JS.LF
       +:+ JS.LF +:+ "sec:s3cret" +:+ JS.LF.
Proof.
  split; [reflexivity|].
  exact (proj2 (proj2 (handshake_message (JS.Str "opus") (JS.Num 96000)
                         (JS.Num 48000) (JS.Str "s3cret") eq_refl))).
Defined.

(** Without a secret argument no 'sec:' line is sent. *)
Lemma handshake_message_no_secret (codec bitrate sampleRate : JS.Value) :
  handshakeMsg codec bitrate sampleRate JS.Undefined
  = handshakeMsg codec bitrate sampleRate JS.Null.
Proof. reflexivity. Qed.

Lemma on_message_READY (data : string) :
  JS.trim data = "READY" -> on_message data = Resolve.
Proof. unfold on_message. now intros ->. Qed.

Lemma startsWith_append (p s : string) : JS.startsWith (p +:+ s) p = true.
Proof.
  unfold JS.startsWith. induction p as [|c p IH].
  - now destruct s.
  - change (String.prefix (String c p) (String c (p +:+ s)) = true).
    simpl. now destruct (Ascii.ascii_dec c c).
Qed.

Lemma on_message_ERR (data reason : string) :
  JS.trim data = "ERR:" +:+ reason ->
  on_message data = Throw (JS.new_Error ("Proxy error: " +:+ reason)).
Proof.
  unfold on_message. intros ->.
  assert (String.eqb ("ERR:" +:+ reason) "READY" = false) as -> by reflexivity.
  now rewrite startsWith_append.
Qed.

End HandshakeProperties.

(** * Properties of [AudioPlugin] *)

Section PluginProperties.

Import Handler AudioPlugin.

Context {P : Type} `{MSP.SourceBuffer P}.

Implicit Types (w : World P) (s k : nat).

(** *** Invariants of handlers *)

Lemma keeps_ret (I : World P -> Prop) {A} (a : A) : keeps I (ret a).
Proof. intros w Hw. exact Hw. Qed.

Lemma keeps_throw (I : World P -> Prop) {A} (e : JS.Error) :
  keeps I (throw (A:=A) e).
Proof. intros w Hw. exact Hw. Qed.

Lemma keeps_get (I : World P -> Prop) : keeps I get.
Proof. intros w Hw. exact Hw. Qed.

Lemma keeps_bind (I : World P -> Prop) {A B} (m : M P A) (f : A -> M P B) :
  keeps I m -> (forall a, keeps I (f a)) -> keeps I (bind m f).
Proof.
  intros Hm Hf w Hw. unfold bind. specialize (Hm w Hw).
  destruct (m w) as [[e|a] w']; simpl in *; [exact Hm|].
  now apply Hf.
Qed.

Lemma keeps_try_catch (I : World P -> Prop) {A} (m : M P A)
    (h : JS.Error -> M P A) :
  keeps I m -> (forall e, keeps I (h e)) -> keeps I (try_catch m h).
Proof.
  intros Hm Hh w Hw. unfold try_catch. specialize (Hm w Hw).
  destruct (m w) as [[e|a] w']; simpl in *; [|exact Hm].
  now apply Hh.
Qed.

Lemma keeps_modify (I : World P -> Prop) (f : World P -> World P) :
  (forall w, I w -> I (f w)) -> keeps I (modify f).
Proof. intros Hf w Hw. now apply Hf. Qed.

Lemma wf_effect (e : Effect) : keeps wf (effect (P:=P) e).
Proof. intros w Hw. exact Hw. Qed.

Lemma wf_upd_socket s (f : Socket -> Socket) : keeps wf (upd_socket (P:=P) s f).
Proof. intros w Hw. exact Hw. Qed.

Lemma wf_on_player {A} k (m : MSP.M P A) : keeps wf (on_player k m).
Proof.
  intros w Hw. unfold on_player.
  destruct (players w !! k); [|exact Hw].
  unfold wf in *. simpl. destruct (msp w); [|exact I].
  now rewrite length_insert.
Qed.

Ltac keeps_wf :=
  repeat first
    [ apply keeps_ret | apply keeps_throw | apply keeps_get
    | apply wf_effect | apply wf_upd_socket | apply wf_on_player
    | apply keeps_bind; [|intros ?]
    | apply keeps_try_catch; [|intros ?]
    | match goal with
      | |- keeps _ (match ?x with _ => _ end) => destruct x
      end ].

Ltac wf_modify :=
  apply keeps_modify; intros ? ?; unfold wf in *; simpl;
  rewrite ?length_app; simpl; solve [auto | lia].

Ltac wf_auto := keeps_wf; try wf_modify.

Lemma wf_on_msp {A} (m : MSP.M P A) : keeps wf (on_msp m).
Proof. unfold on_msp. wf_auto. Qed.

Lemma wf_stopAudio : keeps wf (stopAudio (P:=P)).
Proof. unfold stopAudio. wf_auto. Qed.

Lemma wf_startAudio : keeps wf (startAudio (P:=P)).
Proof. unfold startAudio. wf_auto. Qed.

Lemma wf_on_open s : keeps wf (on_open (P:=P) s).
Proof. unfold on_open. wf_auto. Qed.

Lemma wf_after_attach s : keeps wf (after_attach (P:=P) s).
Proof. unfold after_attach, handshake. wf_auto. Qed.

Lemma wf_after_handshake s : keeps wf (after_handshake (P:=P) s).
Proof. unfold after_handshake. wf_auto. Qed.

Lemma wf_on_message s data (l : Listener) : keeps wf (on_message (P:=P) s data l).
Proof. unfold on_message. wf_auto. Qed.

Lemma wf_listener (m : M P unit) : keeps wf m -> keeps wf (listener m).
Proof.
  intros Hm. unfold listener. apply keeps_try_catch; [exact Hm|].
  intros e. apply wf_effect.
Qed.

Lemma wf_dispatch s data (ls : list Listener) : keeps wf (dispatch (P:=P) s data ls).
Proof.
  induction ls as [|l ls IH]; simpl; [apply keeps_ret|].
  apply keeps_bind; [|intros _; exact IH].
  apply wf_listener, wf_on_message.
Qed.

Lemma wf_resume_all (ss : list nat) : keeps wf (resume_all (P:=P) ss).
Proof.
  induction ss as [|s ss IH]; simpl; [apply keeps_ret|].
  apply keeps_bind; [|intros _; exact IH].
  apply wf_listener, wf_after_attach.
Qed.

Lemma wf_repeat_handler (n : nat) (m : M P unit) :
  keeps wf m -> keeps wf (repeat_handler n m).
Proof.
  intros Hm. induction n as [|n IH]; simpl; [apply keeps_ret|].
  apply keeps_bind; [|intros _; exact IH].
  now apply wf_listener.
Qed.

Lemma wf_onClickPlayHandler (outcome : option JS.Error) :
  keeps wf (onClickPlayHandler (P:=P) outcome).
Proof. unfold onClickPlayHandler. wf_auto. Qed.

Lemma wf_step (ev : Event P) : keeps wf (step ev).
Proof.
  destruct ev; simpl.
  - unfold on_connected. wf_auto.
  - unfold on_disconnected. wf_auto.
  - apply wf_on_open.
  - unfold on_error. wf_auto.
  - unfold on_close. wf_auto.
  - unfold fire_message. keeps_wf. apply wf_dispatch.
  - unfold fire_sourceopen. keeps_wf. apply wf_resume_all.
  - apply wf_on_player.
  - apply wf_on_player.
  - apply wf_on_player.
  - unfold fire_click. keeps_wf.
    apply wf_repeat_handler, wf_onClickPlayHandler.
  - keeps_wf.
Qed.

(** Every state the plugin reaches is well formed. *)
Lemma wf_run (evs : list (Event P)) w : wf w -> wf (run evs w).
Proof.
  revert w. induction evs as [|ev evs IH]; intros w Hw; simpl; [exact Hw|].
  apply IH. now apply wf_listener; [apply wf_step|].
Qed.

(** *** stopAudio *)

Lemma on_player_detach_returns w k (p : MSP.Player P) :
  players w !! k = Some p -> fst (on_player k MSP.detach w) = inr tt.
Proof.
  intros Hp. unfold on_player. rewrite Hp. simpl. apply detach_returns.
Qed.

Lemma bind_get {A} (f : World P -> M P A) w : bind get f w = f w w.
Proof. reflexivity. Qed.

Lemma bind_inr {A B} (m : M P A) (f : A -> M P B) w (a : A) w' :
  m w = (inr a, w') -> bind m f w = f a w'.
Proof. intros Hm. unfold bind. now rewrite Hm. Qed.

(** [stopAudio] returns, with both fields cleared. *)
Lemma stopAudio_runs w :
  wf w ->
  exists w1, stopAudio w = (inr tt, w1) /\ msp w1 = None /\ ws w1 = None.
Proof.
  intros Hw. unfold stopAudio. rewrite bind_get.
  assert (exists w2,
            match msp w with
            | Some k =>
                bind (effect (Detach k))
                  (fun _ => bind (on_player k MSP.detach)
                              (fun _ => modify (set_msp None)))
            | None => ret tt
            end w = (inr tt, w2) /\ msp w2 = None) as (w2 & Hfirst & Hmsp).
  { unfold wf in Hw. destruct (msp w) as [k|] eqn:Hk; [|now exists w].
    destruct (lookup_lt_is_Some_2 (players w) k Hw) as [p Hp].
    rewrite (bind_inr (effect (Detach k)) _ w tt _ eq_refl).
    match goal with
    | |- context [bind (on_player k MSP.detach) _ ?w0] =>
        pose proof (on_player_detach_returns w0 k p Hp) as Hd;
        destruct (on_player k MSP.detach w0) as [r w3] eqn:Ho
    end.
    simpl in Hd. subst r.
    rewrite (bind_inr (on_player k MSP.detach) _ _ tt w3 Ho).
    now exists (set_msp None w3). }
  rewrite (bind_inr _ _ w tt w2 Hfirst), bind_get.
  destruct (ws w2) as [s|] eqn:Hs.
  - rewrite (bind_inr (effect (Close s)) _ w2 tt _ eq_refl).
    eexists. split; [reflexivity|]. now split.
  - exists w2. now repeat split.
Qed.

(** C10. In a state where [msp], when set, refers to a player,
    [stopAudio()] returns without throwing and leaves [msp] and [ws]
    null; a second [stopAudio()] right after it changes nothing at all:
    it neither detaches a player nor closes a socket, and does not
    throw. *)
Theorem stopAudio_idempotent w :
  wf w ->
  let r := stopAudio w in
  fst r = inr tt
  /\ msp (snd r) = None
  /\ ws (snd r) = None
  /\ stopAudio (snd r) = (inr tt, snd r).
Proof.
  intros Hw. cbv zeta.
  destruct (stopAudio_runs w Hw) as (w1 & Hstop & Hmsp & Hws).
  rewrite Hstop. simpl. repeat split; try assumption.
  unfold stopAudio. rewrite bind_get, Hmsp.
  rewrite (bind_inr (ret tt) _ w1 tt w1 eq_refl).
  rewrite bind_get, Hws. reflexivity.
Qed.

(** *** The handshake sent by the 'open' handler *)

(** Whatever the settings, the message the 'open' handler sends is the one
    [handshake] builds without a secret. *)
Lemma after_attach_sends w s (t : nat) (sk : Socket) :
  sockets w !! s = Some sk ->
  ws w = Some t ->
  fst (after_attach s w) = inr tt
  /\ effects (snd (after_attach s w))
     = (effects w
          ++ [Send t (AudioProxy.handshakeMsg (codec sk) (bitrate sk)
                        (samplerate sk) JS.Null)])%list.
Proof.
  intros Hs Hws. unfold after_attach, handshake, add_listener, set_onopen,
    upd_socket, effect.
  unfold try_catch, bind, get, modify. simpl. rewrite Hs, Hws. simpl.
  now split.
Qed.

(** *** The reply to the handshake *)

(** C5 (amended). When the reply, trimmed, is 'ERR:' followed by a
    reason, the reply listener throws an Error whose message is
    'Proxy error: ' followed by that reason. When it is 'READY', the
    promise resolves and the 'open' handler goes on: on the socket in
    [this.ws] the reply listener is gone and the listener forwarding
    messages to [feed] is registered, the click listener is armed, and
    neither a status is shown nor the session stopped. *)
Theorem handshake_reply_handling w s (sk : Socket) (data : MSP.Segment) :
  sockets w !! s = Some sk ->
  ws w = Some s ->
  (forall reason : string,
      JS.trim (decode data) = "ERR:" +:+ reason ->
      AudioProxy.on_message (decode data)
      = AudioProxy.Throw (JS.new_Error ("Proxy error: " +:+ reason)))
  /\ (JS.trim (decode data) = "READY" ->
      let r := on_message s data (HandshakeReply s) w in
      fst r = inr tt
      /\ onmessage <$> sockets (snd r) !! s
         = Some (remove_first (HandshakeReply s) (onmessage sk) ++ [Forward])%list
      /\ onopen <$> sockets (snd r) !! s = Some Returned
      /\ armed (snd r) = S (armed w)
      /\ effects (snd r) = effects w
      /\ msp (snd r) = msp w
      /\ ws (snd r) = Some s).
Proof.
  intros Hs Hws. split.
  - intros reason. apply on_message_ERR.
  - intros Hready. cbv zeta. unfold on_message.
    rewrite (on_message_READY _ Hready).
    unfold after_handshake, remove_listener, set_onopen, add_listener, upd_socket.
    unfold bind, get, modify, throw, ret. simpl. rewrite Hws. simpl.
    rewrite !list_lookup_alter_eq, Hs. simpl. repeat split; assumption.
Qed.

End PluginProperties.

(** ** The plugin on concrete runs *)

Section PluginRuns.

Import Handler AudioPlugin FakeSourceBuffer Scenario.

(** C5, an instance: the replies 'READY' and 'ERR:bad secret' of the
    proxy, received while the handshake is awaited. *)
Lemma handshake_reply_handling_witness :
  (sockets (handshaking fresh) !! 0%nat = Some socket0
   /\ ws (handshaking fresh) = Some 0%nat)
  /\ AudioProxy.on_message (decode ERR_bad_secret)
     = AudioProxy.Throw (JS.new_Error "Proxy error: bad secret")
  /\ onmessage <$> sockets (snd (on_message 0 READY (HandshakeReply 0)
                                   (handshaking fresh))) !! 0%nat
     = Some [Forward].
Proof.
  split; [split; reflexivity|].
  destruct (handshake_reply_handling (handshaking fresh)
              0 socket0 ERR_bad_secret eq_refl eq_refl) as [Herr _].
  destruct (handshake_reply_handling (handshaking fresh)
              0 socket0 READY eq_refl eq_refl) as [_ Hready].
  split; [exact (Herr "bad secret" eq_refl)|].
  exact (proj1 (proj2 (Hready eq_refl))).
Defined.

(** C5, as stated, fails: for the reply 'ERR:bad secret' the message of
    the error is 'Proxy error: bad secret', and the error leaves the
    reply listener instead of reaching [startAudio]: no status is shown,
    the socket is not closed and the session stays as it was. *)
Lemma handshake_error_is_prefixed_and_uncaught :
  AudioProxy.on_message (decode ERR_bad_secret)
  = AudioProxy.Throw (JS.new_Error "Proxy error: bad secret")
  /\ JS.message (JS.new_Error "Proxy error: bad secret") <> "bad secret"
  /\ effects (run [WsMessage 0 ERR_bad_secret] (handshaking fresh))
     = [DisableOptions true; Send 0 hello;
        Uncaught (JS.new_Error "Proxy error: bad secret")]
  /\ ws (run [WsMessage 0 ERR_bad_secret] (handshaking fresh)) = Some 0%nat
  /\ msp (run [WsMessage 0 ERR_bad_secret] (handshaking fresh)) = Some 0%nat
  /\ onopen <$> sockets (run [WsMessage 0 ERR_bad_secret] (handshaking fresh)) !! 0%nat
     = Some AwaitHandshake.
Proof. repeat split. discriminate. Qed.

(** C6, on the settings of [loaded], where 'audio_secret' is 's3cret':
    the handshake sent once the socket is open and the player attached
    has no 'sec:' line. *)
Theorem configured_secret_is_not_sent :
  getSetting loaded "audio_secret" = JS.Str "s3cret"
  /\ effects (handshaking fresh) = [DisableOptions true; Send 0 hello].
Proof. split; reflexivity. Qed.

(** C10, an instance: stopping a streaming session. *)
Lemma stopAudio_idempotent_witness :
  wf (streaming fresh)
  /\ effects (snd (stopAudio (streaming fresh)))
     = [DisableOptions true; Send 0 hello; Detach 0; Close 0]
  /\ msp (snd (stopAudio (streaming fresh))) = None
  /\ ws (snd (stopAudio (streaming fresh))) = None
  /\ stopAudio (snd (stopAudio (streaming fresh)))
     = (inr tt, snd (stopAudio (streaming fresh))).
Proof.
  assert (wf (streaming fresh)) as Hw by (vm_compute; lia).
  split; [exact Hw|]. split; [reflexivity|].
  exact (proj2 (stopAudio_idempotent (streaming fresh) Hw)).
Defined.

(** C3, seen from the session: the QuotaExceededError of a direct feed
    reaches the 'message' listener, which reports it and stops the
    session. *)
Lemma direct_quota_stops_session :
  effects (run [WsMessage 0 seg1] (streaming (full 100)))
  = [DisableOptions true; Send 0 hello;
     ShowStatus "Audio failure: The quota has been exceeded." (JS.Str "error");
     Detach 0; Close 0]
  /\ calls (run [WsMessage 0 seg1] (streaming (full 100)))
     = [MSP.CallAppend seg1 (Some QuotaExceededError)].
Proof. split; reflexivity. Qed.

End PluginRuns.

(** * Properties of the proxy's handshake *)

Section ProxyProperties.

Import Proxy.





Lemma has_colon_field (k v : string) : has_colon (k +:+ ":" +:+ v) = true.
Proof.
  induction k as [|c k IH]; [reflexivity|].
  change (has_colon (String c (k +:+ ":" +:+ v)) = true).
  simpl. rewrite IH. apply orb_true_r.
Qed.


Lemma cut_f2_field (k v : string) :
  colon_free k = true -> cut_f2 (k +:+ ":" +:+ v) = v.
Proof.
  unfold colon_free, cut_f2. rewrite has_colon_field.
  induction k as [|c k IH]; intros Hk; [reflexivity|].
  change (after_colon (String c (k +:+ ":" +:+ v)) = v).
  simpl in *. destruct (is_colon c); [discriminate|].
  now apply IH.
Qed.























End ProxyProperties.

(** * More properties of [MediaSourcePlayer] *)

Section PlayerInvariants.

Import Handler MediaSourcePlayer Schedule.

Context {P : Type} `{SourceBuffer P}.

Implicit Types (w : World P) (data : Segment).

Ltac unfold_monad :=
  unfold bind, ret, throw, get, modify, try_catch, shift, push,
    sb_updating, sb_appendBuffer, sb_remove, sb_buffered_end,
    record_call, upd_this, upd_dom, appended in *; simpl in *.

Ltac close_pending :=
  simpl; rewrite ?appended_of_snoc; simpl;
  rewrite ?app_nil_r, <- ?app_assoc; simpl;
  solve [ auto ].

(** X7. In every state an instance reaches from its construction, direct
    feed is on only while the queue is empty: a segment fed directly can
    never overtake a queued one. *)
Theorem direct_feed_only_when_queue_empty (mime : string)
    (d : gmap nat Element) (evs : list (Event P)) :
  let w := fst (run evs (init mime d)) in
  directFeed (this w) = false \/ dataQueue (this w) = [].
Proof.
  destruct (run_order evs (init mime d)) as [_ Hg]; [easy|].
  cbv zeta. unfold queue_guarded in Hg.
  destruct (directFeed (this (fst (run evs (init mime d))))); auto.
Qed.

(** X8. Whatever the primitive does or throws, the 'updateend' listener
    neither loses nor duplicates a segment: the segments accepted by the
    primitive followed by the queued ones are the same before and after,
    and the queue is either untouched or has lost its head. *)
Theorem updateend_keeps_segments w :
  let w' := snd (on_updateend w) in
  (appended w' ++ dataQueue (this w'))%list
  = (appended w ++ dataQueue (this w))%list
  /\ (dataQueue (this w') = dataQueue (this w)
      \/ dataQueue (this w') = tail (dataQueue (this w))).
Proof.
  unfold on_updateend. unfold_monad.
  destruct w as [[m rs sb df q el ol ap] d cs]; simpl in *.
  destruct sb as [p|]; [|close_pending].
  destruct (updating p); [close_pending|].
  destruct q as [|data q]; [close_pending|].
  simpl. destruct (appendBuffer data p) as [[e|] p1] eqn:Ha; [|close_pending].
  simpl. destruct (String.eqb (JS.name e) "QuotaExceededError"); [|close_pending].
  simpl. destruct (buffered_end p1) as [e1|bufferEnd]; [close_pending|].
  simpl. destruct (remove 0%Q (evict_end bufferEnd) p1) as [[e2|] p2] eqn:Hr;
    [close_pending|].
  simpl. destruct (updating p2); [close_pending|].
  simpl. destruct (appendBuffer data p2) as [[e3|] p3] eqn:Ha2; close_pending.
Qed.

Lemma feed_queues w (e : nat) data :
  attachedEl (this w) = Some e ->
  readyState (this w) = open ->
  directFeed (this w) = false ->
  feed data w
  = (inr tt, upd_this (fun p => set_dataQueue (dataQueue p ++ [data])%list p) w).
Proof.
  intros He Hr Hd. unfold feed. unfold_monad.
  rewrite He, Hr. simpl. now rewrite Hd.
Qed.

(** X9. While direct feed is off, on an attached instance whose media
    source is open, any number of [feed] calls in a row return normally,
    make no call on the source buffer, and leave their segments at the
    tail of the queue in the order of the calls. *)
Theorem feeds_are_queued_while_busy w (e : nat) (ds : list Segment) :
  attachedEl (this w) = Some e ->
  readyState (this w) = open ->
  directFeed (this w) = false ->
  let r := run (feeds ds) w in
  snd r = ds
  /\ calls (fst r) = calls w
  /\ sourceBuffer (this (fst r)) = sourceBuffer (this w)
  /\ dataQueue (this (fst r)) = (dataQueue (this w) ++ ds)%list
  /\ directFeed (this (fst r)) = false.
Proof.
  revert w. induction ds as [|data ds IH]; intros w He Hr Hd; simpl.
  - now rewrite app_nil_r.
  - rewrite (feed_queues w e data He Hr Hd). simpl.
    destruct (IH (upd_this (fun p => set_dataQueue (dataQueue p ++ [data])%list p) w)
                He Hr Hd) as (Ha & Hc & Hs & Hq & Hf).
    simpl in *. rewrite Ha, Hc, Hs, Hq, Hf, <- app_assoc. now repeat split.
Qed.

Lemma completion_appends w (p0 p : P) data (q : list Segment) :
  sourceBuffer (this w) = Some p0 ->
  dataQueue (this w) = data :: q ->
  accepting p ->
  let w' := fst (run [EvProgress p; EvUpdateEnd] w) in
  calls w' = (calls w ++ [CallAppend data None])%list
  /\ dataQueue (this w') = q
  /\ sourceBuffer (this w') = Some (snd (appendBuffer data p))
  /\ snd (run [EvProgress p; EvUpdateEnd] w) = [].
Proof.
  intros Hs Hq [Hu Ha]. specialize (Ha data). simpl.
  unfold progress, fire_updateend, on_updateend. unfold_monad.
  rewrite Hs. simpl. rewrite Hu. simpl. rewrite Hq. simpl.
  destruct (appendBuffer data p) as [r p1]. simpl in *. subst r. simpl.
  rewrite Hq. now repeat split.
Qed.

Lemma completion_reenables w (p0 p : P) :
  sourceBuffer (this w) = Some p0 ->
  dataQueue (this w) = [] ->
  updating p = false ->
  let w' := fst (run [EvProgress p; EvUpdateEnd] w) in
  calls w' = calls w
  /\ dataQueue (this w') = []
  /\ directFeed (this w') = true
  /\ snd (run [EvProgress p; EvUpdateEnd] w) = [].
Proof.
  intros Hs Hq Hu. simpl.
  unfold progress, fire_updateend, on_updateend. unfold_monad.
  rewrite Hs. simpl. rewrite Hu. simpl. rewrite Hq. simpl.
  now repeat split.
Qed.

Lemma run_app (evs1 evs2 : list (Event P)) w :
  run (evs1 ++ evs2) w
  = (fst (run evs2 (fst (run evs1 w))),
     (snd (run evs1 w) ++ snd (run evs2 (fst (run evs1 w))))%list).
Proof.
  revert w. induction evs1 as [|ev evs1 IH]; intros w; simpl.
  - now destruct (run evs2 w).
  - rewrite IH. simpl. now rewrite app_assoc.
Qed.

(** X10. A queue drains in order: when the source buffer finishes once
    per queued segment, each time idle and accepting, and once more after
    that, the queued segments are appended in the order of the queue,
    nothing else is appended, the queue ends up empty and direct feed is
    on again. *)
Theorem queue_drains_in_order w (p0 : P) (ps : list P) (p' : P) :
  sourceBuffer (this w) = Some p0 ->
  length ps = length (dataQueue (this w)) ->
  Forall accepting ps ->
  updating p' = false ->
  let r := run (completions (ps ++ [p'])) w in
  calls (fst r)
  = (calls w ++ map (fun data => CallAppend data None) (dataQueue (this w)))%list
  /\ dataQueue (this (fst r)) = []
  /\ directFeed (this (fst r)) = true
  /\ snd r = [].
Proof.
  revert w p0. induction ps as [|p ps IH]; intros w p0 Hs Hl Hacc Hu.
  - destruct (dataQueue (this w)) as [|? ?] eqn:Hq; [|discriminate].
    destruct (completion_reenables w p0 p' Hs Hq Hu) as (Hc & Hq' & Hd & Ha).
    cbv zeta. change (completions ([] ++ [p'])) with [EvProgress p'; EvUpdateEnd].
    rewrite Hc, Hq', Hd, Ha, app_nil_r. now repeat split.
  - destruct (dataQueue (this w)) as [|data q] eqn:Hq; [discriminate|].
    apply Forall_cons in Hacc as [Hp Hacc].
    destruct (completion_appends w p0 p data q Hs Hq Hp) as (Hc & Hq' & Hs' & Ha).
    cbv zeta.
    change (completions ((p :: ps) ++ [p']))
      with ([EvProgress p; EvUpdateEnd] ++ completions (ps ++ [p']))%list.
    rewrite run_app. cbn [fst snd].
    set (w1 := fst (run [EvProgress p; EvUpdateEnd] w)) in *.
    assert (length ps = length (dataQueue (this w1))) as Hl1
      by (rewrite Hq'; simpl in Hl; congruence).
    destruct (IH w1 _ Hs' Hl1 Hacc Hu) as (Hc1 & Hq1 & Hd1 & Ha1).
    rewrite Hc1, Hq1, Hd1, Ha1, Ha, Hc, Hq'. simpl.
    rewrite <- app_assoc. now repeat split.
Qed.

(** X11. [attach] binds once: after an [attach] that returned, every
    further [attach], on any element, throws 'Already attached to an
    element' and changes nothing. *)
Theorem attach_binds_once w (element element' : nat) :
  fst (attach element w) = inr tt ->
  attach element' (snd (attach element w))
  = (inl AlreadyAttachedError, snd (attach element w)).
Proof.
  unfold attach. unfold_monad.
  destruct (attachedEl (this w)); [discriminate|]. reflexivity.
Qed.

(** X12. From construction, [attach], 'sourceopen' and a first [feed] the
    source buffer accepts: the segment is appended directly, nothing is
    queued, and direct feed stays on exactly when the buffer is not
    updating after the append. *)
Theorem attach_open_feed (mime : string) (d : gmap nat Element)
    (element : nat) (p0 : P) data :
  fst (appendBuffer data (set_mode_sequence p0)) = None ->
  let r := run [EvAttach element; EvSourceOpen p0; EvFeed data] (init mime d) in
  snd r = [data]
  /\ calls (fst r) = [CallAppend data None]
  /\ dataQueue (this (fst r)) = []
  /\ directFeed (this (fst r))
     = negb (updating (snd (appendBuffer data (set_mode_sequence p0)))).
Proof.
  intros Ha. simpl.
  unfold attach, fire_sourceopen, on_sourceopen, feed. unfold_monad.
  destruct (appendBuffer data (set_mode_sequence p0)) as [r p1].
  simpl in *. subst r. simpl.
  destruct (updating p1); now repeat split.
Qed.

(** X13. The upper end of the evicted range is [max(1, bufferEnd - 30)]
    exactly when [bufferEnd - 30] is at most 0 or at least 1, so for every
    whole number of seconds; strictly between 0 and 1 it is smaller. *)
Theorem evict_end_is_max_iff (bufferEnd : Q) :
  (evict_end bufferEnd == spec_evict_end bufferEnd
   <-> (bufferEnd - BUFFER_MIN_REMAIN <= 0 \/ 1 <= bufferEnd - BUFFER_MIN_REMAIN))%Q.
Proof.
  unfold evict_end, spec_evict_end.
  set (x := (bufferEnd - BUFFER_MIN_REMAIN)%Q).
  destruct (Qle_bool x 0) eqn:Hle.
  - apply Qle_bool_iff in Hle. split; [auto|]. intros _.
    symmetry. apply Q.max_l. apply Qle_trans with 0%Q; [exact Hle|easy].
  - assert (0 < x)%Q as Hpos.
    { apply Qnot_le_lt. intros Hc. apply Qle_bool_iff in Hc. congruence. }
    split.
    + intros Heq. right.
      destruct (Q.max_spec 1 x) as [[Hlt Hm]|[Hge Hm]].
      * now apply Qlt_le_weak.
      * rewrite Hm in Heq. rewrite Heq. apply Qle_refl.
    + intros [Hc|Hc].
      * exfalso. apply (Qlt_not_le _ _ Hpos Hc).
      * symmetry. now apply Q.max_r.
Qed.

(** *** Segments reach the source buffer in the order of the [feed] calls *)






End PlayerInvariants.

Section PlayerInvariantRuns.

Import Handler MediaSourcePlayer Schedule FakeSourceBuffer Scenario.

Lemma fresh_accepting : accepting fresh.
Proof. split; [reflexivity|]. intros data. reflexivity. Defined.

Lemma feeds_are_queued_while_busy_witness :
  (attachedEl (this (queued 100)) = Some 0%nat
   /\ readyState (this (queued 100)) = open
   /\ directFeed (this (queued 100)) = false)
  /\ calls (fst (run (feeds [[Byte.x03]; [Byte.x04]]) (queued 100)))
     = [CallAppend seg1 None]
  /\ dataQueue (this (fst (run (feeds [[Byte.x03]; [Byte.x04]]) (queued 100))))
     = [seg2; [Byte.x03]; [Byte.x04]].
Proof.
  split; [repeat split|].
  destruct (feeds_are_queued_while_busy (H:=fake_SourceBuffer) (queued 100) 0
              [[Byte.x03]; [Byte.x04]] eq_refl eq_refl eq_refl)
    as (_ & Hc & _ & Hq & _).
  split; [exact Hc | exact Hq].
Defined.

Lemma queue_drains_in_order_witness :
  (sourceBuffer (this (queued 100)) = Some (full 100)
   /\ length [fresh] = length (dataQueue (this (queued 100)))
   /\ Forall accepting [fresh]
   /\ updating fresh = false)
  /\ calls (fst (run (completions ([fresh] ++ [fresh])) (queued 100)))
     = [CallAppend seg1 None; CallAppend seg2 None]
  /\ directFeed (this (fst (run (completions ([fresh] ++ [fresh])) (queued 100))))
     = true.
Proof.
  assert (Forall accepting [fresh]) as Hacc
    by (constructor; [exact fresh_accepting | constructor]).
  split; [repeat split; exact Hacc|].
  destruct (queue_drains_in_order (H:=fake_SourceBuffer) (queued 100) (full 100)
              [fresh] fresh eq_refl eq_refl Hacc eq_refl)
    as (Hc & _ & Hd & _).
  split; [exact Hc | exact Hd].
Defined.

Lemma attach_binds_once_witness :
  fst (attach 0 created) = inr tt
  /\ fst (attach 1 (snd (attach 0 created))) = inl AlreadyAttachedError.
Proof.
  split; [reflexivity|].
  exact (f_equal fst (attach_binds_once (P:=Fake) created 0 1 eq_refl)).
Defined.

Lemma attach_open_feed_witness :
  fst (appendBuffer seg1 (set_mode_sequence fresh)) = None
  /\ calls (fst (run [EvAttach 0; EvSourceOpen fresh; EvFeed seg1] created))
     = [CallAppend seg1 None]
  /\ directFeed (this (fst (run [EvAttach 0; EvSourceOpen fresh; EvFeed seg1] created)))
     = false.
Proof.
  split; [reflexivity|].
  destruct (attach_open_feed (H:=fake_SourceBuffer) opus document 0 fresh seg1 eq_refl)
    as (_ & Hc & _ & Hd).
  split; [exact Hc | exact Hd].
Defined.


End PlayerInvariantRuns.

(** * More properties of [AudioPlugin] *)

Section SessionProperties.

Import Handler AudioPlugin Session.

Context {P : Type} `{MSP.SourceBuffer P}.

Implicit Types (w : World P) (s k : nat).

(** A method call on a player leaves the plugin's own fields, the sockets
    and the effects alone. *)
Lemma on_player_frame {A} k (m : MSP.M P A) w :
  let w' := snd (on_player k m w) in
  msp w' = msp w /\ ws w' = ws w /\ sockets w' = sockets w
  /\ settings w' = settings w /\ connected w' = connected w
  /\ armed w' = armed w /\ effects w' = effects w
  /\ length (players w') = length (players w).
Proof.
  unfold on_player. destruct (players w !! k); simpl; [|now repeat split].
  repeat split. apply length_insert.
Qed.

Lemma stopAudio_result w :
  wf w ->
  exists w1,
    stopAudio w = (inr tt, w1)
    /\ msp w1 = None /\ ws w1 = None
    /\ effects w1 = (effects w ++ teardown w)%list
    /\ sockets w1 = sockets w /\ settings w1 = settings w
    /\ connected w1 = connected w /\ armed w1 = armed w
    /\ length (players w1) = length (players w).
Proof.
  intros Hw. unfold stopAudio, teardown. rewrite bind_get.
  unfold wf in Hw. destruct (msp w) as [k|] eqn:Hk.
  - destruct (lookup_lt_is_Some_2 (players w) k Hw) as [p Hp].
    set (w0 := snd (effect (Detach k) w)).
    pose proof (on_player_detach_returns w0 k p Hp) as Hd.
    pose proof (on_player_frame k MSP.detach w0) as Hf.
    destruct (on_player k MSP.detach w0) as [r w3] eqn:Ho.
    simpl in Hd, Hf. subst r.
    destruct Hf as (Hm & Hws & Hso & Hse & Hco & Har & Hef & Hpl).
    rewrite (bind_inr
               (bind (effect (Detach k))
                  (fun _ => bind (on_player k MSP.detach)
                              (fun _ => modify (set_msp None))))
               _ w tt (set_msp None w3)).
    2:{ rewrite (bind_inr (effect (Detach k)) _ w tt w0 eq_refl).
        now rewrite (bind_inr (on_player k MSP.detach) _ w0 tt w3 Ho). }
    rewrite bind_get. change (ws (set_msp None w3)) with (ws w3). rewrite Hws.
    destruct (ws w) as [s|] eqn:Hs.
    + rewrite (bind_inr (effect (Close s)) _ _ tt _ eq_refl).
      eexists. split; [reflexivity|]. simpl.
      rewrite Hef, Hso, Hse, Hco, Har, Hpl, <- app_assoc. now repeat split.
    + eexists. split; [reflexivity|]. simpl.
      rewrite Hef, Hso, Hse, Hco, Har, Hpl. now repeat split.
  - rewrite (bind_inr (ret tt) _ w tt w eq_refl), bind_get.
    destruct (ws w) as [s|] eqn:Hs.
    + rewrite (bind_inr (effect (Close s)) _ w tt _ eq_refl).
      eexists. split; [reflexivity|]. simpl. now repeat split.
    + exists w. simpl. rewrite app_nil_r. now repeat split.
Qed.

Lemma try_catch_inr {A} (m : M P A) (h : JS.Error -> M P A) w (a : A) w' :
  m w = (inr a, w') -> try_catch m h w = (inr a, w').
Proof. intros Hm. unfold try_catch. now rewrite Hm. Qed.

Lemma try_catch_inl {A} (m : M P A) (h : JS.Error -> M P A) w (e : JS.Error) w' :
  m w = (inl e, w') -> try_catch m h w = h e w'.
Proof. intros Hm. unfold try_catch. now rewrite Hm. Qed.

Lemma bind_inl {A B} (m : M P A) (f : A -> M P B) w (e : JS.Error) w' :
  m w = (inl e, w') -> bind m f w = (inl e, w').
Proof. intros Hm. unfold bind. now rewrite Hm. Qed.

Lemma plugin_run_app (evs1 evs2 : list (Event P)) w :
  run (evs1 ++ evs2) w = run evs2 (run evs1 w).
Proof.
  revert w. induction evs1 as [|ev evs1 IH]; intros w; [reflexivity|].
  simpl. apply IH.
Qed.

Lemma wf_init (a : nat) (d : gmap nat MSP.Element) (st : gmap string JS.Value) :
  wf (init (P:=P) a d st).
Proof. exact I. Qed.

(** X15. Whatever has happened before, the 'disconnected' callback ends
    the session: afterwards [msp] and [ws] are null, and the last thing
    the plugin has done is to enable the options again. *)
Theorem disconnected_ends_session (evs : list (Event P)) (a : nat)
    (d : gmap nat MSP.Element) (st : gmap string JS.Value) :
  let w := run (evs ++ [VncDisconnected]) (init a d st) in
  msp w = None /\ ws w = None /\ connected w = false
  /\ last (effects w) = Some (DisableOptions false).
Proof.
  cbv zeta. rewrite plugin_run_app.
  pose proof (wf_run evs _ (wf_init a d st)) as Hw.
  set (w0 := run evs (init a d st)) in *.
  assert (wf (set_connected false w0)) as Hw' by exact Hw.
  destruct (stopAudio_result _ Hw')
    as (w1 & Hstop & Hm & Hs & Hef & _ & _ & Hco & _).
  assert (step VncDisconnected w0
          = (inr tt, snd (effect (DisableOptions false) w1))) as Hstep.
  { simpl. rewrite (bind_inr (modify (set_connected false)) _ w0 tt _ eq_refl).
    unfold on_disconnected. now rewrite (bind_inr stopAudio _ _ tt w1 Hstop). }
  change (run [VncDisconnected] w0)
    with (snd (listener (step VncDisconnected) w0)).
  unfold listener. rewrite (try_catch_inr _ _ _ _ _ Hstep). simpl.
  rewrite Hm, Hs, Hco, last_snoc. now repeat split.
Qed.

(** X16. Once [stopAudio] has run, the 'close' event of the socket it
    has closed goes unnoticed: the listener returns at once, showing no
    status and changing nothing. *)
Theorem close_after_stop_is_silent w :
  wf w ->
  on_close (snd (stopAudio w)) = (inr tt, snd (stopAudio w)).
Proof.
  intros Hw. destruct (stopAudio_result w Hw) as (w1 & Hstop & Hm & _).
  rewrite Hstop. simpl. unfold on_close. now rewrite bind_get, Hm.
Qed.

Lemma on_msp_frame {A} (m : MSP.M P A) w :
  let w' := snd (on_msp m w) in
  msp w' = msp w /\ ws w' = ws w /\ effects w' = effects w.
Proof.
  unfold on_msp. rewrite bind_get. destruct (msp w) as [k|] eqn:Hk.
  - destruct (on_player_frame k m w) as (Hm & Hs & _ & _ & _ & _ & He & _).
    cbv zeta. now rewrite Hm, Hs, He.
  - now repeat split.
Qed.

(** The state in which a failure is reported, then the session stopped. *)
Lemma report_and_stop (text : string) w :
  wf w ->
  exists w1,
    bind (showStatus text (JS.Str "error")) (fun _ => stopAudio) w = (inr tt, w1)
    /\ msp w1 = None /\ ws w1 = None
    /\ effects w1
       = (effects w ++ [ShowStatus text (JS.Str "error")] ++ teardown w)%list.
Proof.
  intros Hw.
  rewrite (bind_inr (showStatus text (JS.Str "error")) _ w tt
             (snd (showStatus text (JS.Str "error") w)) eq_refl).
  set (w0 := snd (showStatus text (JS.Str "error") w)).
  assert (wf w0) as Hw0 by exact Hw.
  destruct (stopAudio_result w0 Hw0) as (w1 & Hstop & Hm & Hs & Hef & _).
  exists w1. rewrite Hstop, Hm, Hs, Hef. simpl. unfold teardown. simpl.
  now rewrite <- app_assoc.
Qed.

(** X17. The listener forwarding messages to [feed] never throws. When
    [feed] returns, the listener does nothing else; when [feed] throws,
    for whatever reason, the listener shows 'Audio failure: ' followed by
    the message of the error and ends the session, leaving [msp] and [ws]
    null. *)
Theorem forward_never_throws w s (data : MSP.Segment) :
  wf w ->
  let fed := on_msp (MSP.feed data) w in
  let r := on_message s data Forward w in
  fst r = inr tt
  /\ match fst fed with
     | inr _ => snd r = snd fed
     | inl err =>
         msp (snd r) = None /\ ws (snd r) = None
         /\ effects (snd r)
            = (effects w
                 ++ [ShowStatus ("Audio failure: " +:+ JS.message err) (JS.Str "error")]
                 ++ teardown w)%list
     end.
Proof.
  intros Hw. cbv zeta. unfold on_message.
  pose proof (wf_on_msp (MSP.feed data) w Hw) as Hw1.
  pose proof (on_msp_frame (MSP.feed data) w) as (Hm & Hs & He).
  destruct (on_msp (MSP.feed data) w) as [[err|[]] w1] eqn:Hf; simpl in *.
  - rewrite (try_catch_inl _ _ _ _ _ Hf).
    destruct (report_and_stop ("Audio failure: " +:+ JS.message err) w1 Hw1)
      as (w2 & Hr & Hm2 & Hs2 & He2).
    rewrite Hr. simpl. unfold teardown in *. rewrite Hm, Hs, He in He2.
    now repeat split.
  - now rewrite (try_catch_inr _ _ _ _ _ Hf).
Qed.

(** X18. When [play()] is rejected, the click handler ends the session
    and does not throw; it shows 'Audio playback failed: ' followed by the
    message of the error, unless the error is an AbortError, which goes
    unreported. *)
Theorem play_rejection_ends_session w (err : JS.Error) :
  wf w ->
  let r := onClickPlayHandler (Some err) w in
  fst r = inr tt
  /\ msp (snd r) = None /\ ws (snd r) = None
  /\ effects (snd r)
     = (effects w
          ++ (if String.eqb (JS.name err) "AbortError" then []
              else [ShowStatus ("Audio playback failed: " +:+ JS.message err)
                               (JS.Str "error")])
          ++ teardown w)%list.
Proof.
  intros Hw. cbv zeta. unfold onClickPlayHandler.
  destruct (String.eqb (JS.name err) "AbortError"); simpl negb; cbv iota.
  - rewrite (bind_inr (ret tt) _ w tt w eq_refl).
    destruct (stopAudio_result w Hw) as (w1 & Hstop & Hm & Hs & Hef & _).
    rewrite Hstop. simpl. now repeat split.
  - destruct (report_and_stop ("Audio playback failed: " +:+ JS.message err) w Hw)
      as (w1 & Hr & Hm & Hs & He).
    rewrite Hr. simpl. now repeat split.
Qed.

(** X19. With the audio plugin enabled and no session running, a codec
    setting that is neither 'opus' nor 'aac' makes the 'connected'
    callback disable the options and show 'Audio setup failed:
    Unsupported codec ' followed by the codec; no socket is created and
    [msp] and [ws] stay as they were. *)
Theorem unsupported_codec_reported w :
  msp w = None ->
  JS.truthy (getSetting w "audio_enabled") = true ->
  JS.strict_eq (getSetting w "audio_codec") (JS.Str "opus") = false ->
  JS.strict_eq (getSetting w "audio_codec") (JS.Str "aac") = false ->
  let r := on_connected w in
  fst r = inr tt
  /\ effects (snd r)
     = (effects w
          ++ [DisableOptions true;
              ShowStatus ("Audio setup failed: Unsupported codec "
                          +:+ JS.to_string (getSetting w "audio_codec"))
                         (JS.Str "error")])%list
  /\ sockets (snd r) = sockets w
  /\ msp (snd r) = None
  /\ ws (snd r) = ws w.
Proof.
  intros Hm He Ho Ha. cbv zeta. unfold on_connected.
  rewrite bind_get, He. change (negb true) with false. cbv iota.
  rewrite (bind_inr (effect (DisableOptions true)) _ w tt
             (snd (effect (DisableOptions true) w)) eq_refl).
  unfold startAudio, try_catch, bind, get, throw, ret, showStatus, effect, modify.
  simpl. rewrite Hm.
  change (getSetting (snd (effect (DisableOptions true) w)) "audio_codec")
    with (getSetting w "audio_codec").
  unfold getSetting in *. simpl. rewrite Ho, Ha. simpl.
  rewrite <- app_assoc. now repeat split.
Qed.

Lemma set_armed_same w : armed w = 0%nat -> set_armed 0 w = w.
Proof. destruct w. simpl. now intros ->. Qed.

Lemma armed_on_player {A} k (m : MSP.M P A) :
  keeps (fun w => armed w = 0%nat) (on_player k m).
Proof.
  intros w Hw. destruct (on_player_frame k m w) as (_ & _ & _ & _ & _ & Ha & _).
  cbv zeta in Ha. now rewrite Ha.
Qed.

Lemma armed_onClickPlayHandler (outcome : option JS.Error) :
  keeps (fun w => armed w = 0%nat) (onClickPlayHandler (P:=P) outcome).
Proof.
  unfold onClickPlayHandler, showStatus, stopAudio.
  repeat first
    [ apply armed_on_player
    | apply keeps_bind; [|intros ?]
    | apply keeps_ret | apply keeps_get
    | match goal with
      | |- keeps _ (match ?x with _ => _ end) => destruct x
      end
    | (apply keeps_modify; intros ? Hw; exact Hw) ].
Qed.

Lemma armed_repeat_handler (n : nat) (m : M P unit) :
  keeps (fun w => armed w = 0%nat) m ->
  keeps (fun w => armed w = 0%nat) (repeat_handler n m).
Proof.
  intros Hm. induction n as [|n IH]; simpl; [apply keeps_ret|].
  apply keeps_bind; [|intros _; exact IH].
  unfold listener. apply keeps_try_catch; [exact Hm|].
  intros e. apply keeps_modify. intros w Hw. exact Hw.
Qed.

(** X20. The click listeners are one-shot: after a click has run them,
    none is armed, and a second click does nothing at all, whatever
    [play()] would answer. *)
Theorem click_is_one_shot w (outcome outcome' : option JS.Error) :
  armed (snd (fire_click outcome w)) = 0%nat
  /\ fire_click outcome' (snd (fire_click outcome w))
     = (inr tt, snd (fire_click outcome w)).
Proof.
  assert (armed (snd (fire_click outcome w)) = 0%nat) as Ha.
  { unfold fire_click. rewrite bind_get.
    rewrite (bind_inr (modify (set_armed 0)) _ w tt _ eq_refl).
    apply armed_repeat_handler; [apply armed_onClickPlayHandler|reflexivity]. }
  split; [exact Ha|].
  set (w1 := snd (fire_click outcome w)) in *.
  unfold fire_click. rewrite bind_get.
  rewrite (bind_inr (modify (set_armed 0)) _ w1 tt _ eq_refl).
  rewrite Ha. simpl. unfold ret, modify. simpl. now rewrite set_armed_same.
Qed.

(** What [startAudio] does when it starts a session. *)
Lemma startAudio_opens_socket w :
  msp w = None ->
  JS.strict_eq (getSetting w "audio_codec") (JS.Str "opus")
  || JS.strict_eq (getSetting w "audio_codec") (JS.Str "aac") = true ->
  exists mime : string,
    startAudio w
    = (inr tt,
       set_ws (Some (length (sockets w)))
         (set_sockets
            (sockets w
               ++ [mkSocket
                     ((if JS.truthy (getSetting w "audio_encrypt")
                       then "wss://" else "ws://")
                      +:+ JS.to_string (getSetting w "audio_host") +:+ ":"
                      +:+ JS.to_string (getSetting w "audio_port") +:+ "/"
                      +:+ JS.to_string (getSetting w "audio_path"))
                     "arraybuffer" []
                     (getSetting w "audio_codec")
                     (getSetting w "audio_bitrate")
                     (getSetting w "audio_samplerate")
                     mime Registered])%list w)).
Proof.
  intros Hm Hc. unfold startAudio. rewrite bind_get, Hm.
  destruct (JS.strict_eq (getSetting w "audio_codec") (JS.Str "opus")) eqn:Ho.
  - eexists. reflexivity.
  - simpl in Hc. rewrite Hc. eexists. reflexivity.
Qed.

(** X21. The first connection after [load()]: with the audio plugin
    enabled and the codec 'opus' or 'aac', once the VNC connection is up,
    the socket open and the media source open, the plugin has disabled the
    options and sent one message, the handshake built from the codec, the
    bitrate and the sample rate of the settings (and no secret); the
    session holds the new player and the socket, whose URL is built from
    the settings, and the reply listener is registered. *)
Theorem connect_sends_configured_handshake (a : nat)
    (d : gmap nat MSP.Element) (st : gmap string JS.Value) (p0 : P) :
  let w0 := init (P:=P) a d st in
  JS.truthy (getSetting w0 "audio_enabled") = true ->
  JS.strict_eq (getSetting w0 "audio_codec") (JS.Str "opus")
  || JS.strict_eq (getSetting w0 "audio_codec") (JS.Str "aac") = true ->
  let w := run [VncConnected; WsOpen 0; SourceOpen 0 p0] w0 in
  effects w
  = [DisableOptions true;
     Send 0 (AudioProxy.handshakeMsg (getSetting w0 "audio_codec")
               (getSetting w0 "audio_bitrate")
               (getSetting w0 "audio_samplerate") JS.Null)]
  /\ msp w = Some 0%nat
  /\ ws w = Some 0%nat
  /\ onmessage <$> sockets w !! 0%nat = Some [HandshakeReply 0]
  /\ onopen <$> sockets w !! 0%nat = Some AwaitHandshake
  /\ url <$> sockets w !! 0%nat
     = Some ((if JS.truthy (getSetting w0 "audio_encrypt")
              then "wss://" else "ws://")
             +:+ JS.to_string (getSetting w0 "audio_host") +:+ ":"
             +:+ JS.to_string (getSetting w0 "audio_port") +:+ "/"
             +:+ JS.to_string (getSetting w0 "audio_path")).
Proof.
  intros w0 He Hc.
  set (wa := snd (effect (DisableOptions true) (set_connected true w0))).
  destruct (startAudio_opens_socket wa eq_refl Hc) as [mime Hstart].
  assert (step VncConnected w0 = (inr tt, snd (startAudio wa))) as Hstep.
  { simpl step.
    rewrite (bind_inr (modify (set_connected true)) _ w0 tt
               (set_connected true w0) eq_refl).
    unfold on_connected. rewrite bind_get.
    change (getSetting (set_connected true w0) "audio_enabled")
      with (getSetting w0 "audio_enabled").
    rewrite He. change (negb true) with false. cbv iota.
    rewrite (bind_inr (effect (DisableOptions true)) _ (set_connected true w0) tt
               wa eq_refl).
    rewrite Hstart. apply try_catch_inr. exact Hstart. }
  assert (run [VncConnected; WsOpen 0; SourceOpen 0 p0] w0
          = run [WsOpen 0; SourceOpen 0 p0] (snd (startAudio wa))) as Hrun.
  { change (run [VncConnected; WsOpen 0; SourceOpen 0 p0] w0)
      with (run [WsOpen 0; SourceOpen 0 p0]
              (snd (listener (step VncConnected) w0))).
    unfold listener. now rewrite (try_catch_inr _ _ _ _ _ Hstep). }
  cbv zeta. rewrite Hrun, Hstart.
  repeat split; reflexivity.
Qed.

End SessionProperties.

Section SessionRuns.

Import Handler AudioPlugin Session FakeSourceBuffer Scenario.

Lemma wf_streaming (p0 : Fake) : wf (streaming p0).
Proof. unfold streaming, handshaking. apply wf_run, wf_run. exact I. Defined.

Lemma close_after_stop_is_silent_witness :
  wf (streaming fresh)
  /\ effects (snd (on_close (snd (stopAudio (streaming fresh)))))
     = [DisableOptions true; Send 0 hello; Detach 0; Close 0].
Proof.
  split; [exact (wf_streaming fresh)|].
  rewrite (close_after_stop_is_silent (streaming fresh) (wf_streaming fresh)).
  reflexivity.
Defined.

Lemma forward_never_throws_witness :
  wf (streaming (full 100))
  /\ fst (on_message 0 seg1 Forward (streaming (full 100))) = inr tt
  /\ effects (snd (on_message 0 seg1 Forward (streaming (full 100))))
     = [DisableOptions true; Send 0 hello;
        ShowStatus "Audio failure: The quota has been exceeded." (JS.Str "error");
        Detach 0; Close 0].
Proof.
  split; [exact (wf_streaming (full 100))|].
  destruct (forward_never_throws (streaming (full 100)) 0 seg1
              (wf_streaming (full 100))) as [Hr Hm].
  split; [exact Hr|]. exact (proj2 (proj2 Hm)).
Defined.

Lemma play_rejection_ends_session_witness :
  wf (streaming fresh)
  /\ effects (snd (onClickPlayHandler
                     (Some (JS.mkErr "NotAllowedError" "play() was denied"))
                     (streaming fresh)))
     = [DisableOptions true; Send 0 hello;
        ShowStatus "Audio playback failed: play() was denied" (JS.Str "error");
        Detach 0; Close 0].
Proof.
  split; [exact (wf_streaming fresh)|].
  exact (proj2 (proj2 (proj2 (play_rejection_ends_session (streaming fresh)
           (JS.mkErr "NotAllowedError" "play() was denied")
           (wf_streaming fresh))))).
Defined.

Lemma unsupported_codec_reported_witness :
  (msp (init (P:=Fake) 0 document (<["audio_codec" := JS.Str "flac"]> ui_settings))
   = None
   /\ JS.truthy (getSetting (init (P:=Fake) 0 document
                     (<["audio_codec" := JS.Str "flac"]> ui_settings))
                  "audio_enabled") = true)
  /\ effects (snd (on_connected
                     (init (P:=Fake) 0 document
                        (<["audio_codec" := JS.Str "flac"]> ui_settings))))
     = [DisableOptions true;
        ShowStatus "Audio setup failed: Unsupported codec flac" (JS.Str "error")].
Proof.
  split; [split; reflexivity|].
  exact (proj1 (proj2 (unsupported_codec_reported
           (init (P:=Fake) 0 document
              (<["audio_codec" := JS.Str "flac"]> ui_settings))
           eq_refl eq_refl eq_refl eq_refl))).
Defined.

Lemma connect_sends_configured_handshake_witness :
  (JS.truthy (getSetting loaded "audio_enabled") = true
   /\ JS.strict_eq (getSetting loaded "audio_codec") (JS.Str "opus")
      || JS.strict_eq (getSetting loaded "audio_codec") (JS.Str "aac") = true)
  /\ effects (run [VncConnected; WsOpen 0; SourceOpen 0 fresh] loaded)
     = [DisableOptions true; Send 0 hello].
Proof.
  split; [split; reflexivity|].
  exact (proj1 (connect_sends_configured_handshake (H:=fake_SourceBuffer)
                  0 document ui_settings fresh eq_refl eq_refl)).
Defined.

End SessionRuns.
